(** * SiteMapper: the crawler and sitemap writer of [sitemap_generator.py]

    A shallow embedding of the [SitemapGenerator] class and of [main], with
    the properties of the crawl loop, of the URL filter and of the sitemap
    document stated and proved over it.

    Conventions of the embedding.
    - Python [str] is [string]: the bytes of its UTF-8 encoding, a lone
      surrogate standing as the three bytes that the [surrogatepass]
      handler writes for it.  Equality, membership and [endswith] are
      those of the bytes.  [url.lower()] is modelled on the letters A-Z,
      which is all that the suffix test of [_is_file_url] can see: no
      other character lower-cases into the end of one of its suffixes.
    - [Set[str]] is [gset string]; [len] of a set is [size].
    - [max_pages] and [status_code] are Python [int]s, hence [Z].
    - The library calls of the crawler ([urlparse], [urljoin],
      [requests.get], BeautifulSoup's [find_all], the iteration order of
      [list(a_set)] and the write to the output file) are parameters of
      the development: every theorem holds whatever they do.
      [requests.get] is indexed by the number of requests issued before
      it, so that a URL may answer differently each time it is asked for,
      and gives an exception or a response.
    - [urlparse], [urljoin] and the BeautifulSoup parser may raise as
      well.  Each comes as two parameters: [f_raises x] is the exception
      that the call [f(x)] raises, if it raises one, and [f x] is what
      the call returns otherwise.  The functions of the program that
      call them and catch nothing come the same way: [__init__] with
      [__init___raises], [is_valid_url] with [is_valid_url_raises].
    - [print] is taken to return.
    - A raised exception is a value: every operation returns how it
      completed together with the state it left behind. *)

From Equations Require Import Equations.
From Stdlib Require Import ZArith Ascii String.
From stdpp Require Import gmap strings list.

Local Open Scope string_scope.
Local Open Scope Z_scope.
Local Open Scope list_scope.

#[local] Set Warnings "-clear-no-such-hyp,-register-all".

(** ** Strings *)

Module Str.

Definition lower_char (c : ascii) : ascii :=
  let n := nat_of_ascii c in
  if ((65 <=? n)%nat && (n <=? 90)%nat)%bool then ascii_of_nat (n + 32) else c.

(** [s.lower()] *)
Fixpoint lower (s : string) : string :=
  match s with
  | EmptyString => EmptyString
  | String c s' => String (lower_char c) (lower s')
  end.

(** [s.endswith(e)]: some tail of [s] is [e]. *)
Fixpoint endswith (s e : string) : bool :=
  (String.eqb s e ||
   match s with
   | EmptyString => false
   | String _ s' => endswith s' e
   end)%bool.

End Str.

(** ** Exceptions and completions *)

(** The exception classes that matter to the program: the one the crawl loop
    catches, and the others, which it lets through. *)
Inductive exception : Type :=
| RequestException              (* requests.RequestException and subclasses *)
| IndexError                    (* pop from an empty list *)
| ExpatError                    (* xml.parsers.expat.ExpatError *)
| OtherError (name : string).   (* any other Exception *)

Definition is_RequestException (e : exception) : bool :=
  match e with RequestException => true | _ => false end.

Inductive completion : Type :=
| Normal
| Raised (e : exception).

(** ** Values exchanged with the libraries *)

(** The fields of [urlparse(url)] the program and its specification read. *)
Record ParseResult := mkParseResult {
  scheme : string;
  netloc : string;
  path : string
}.

(** A [requests.Response]. *)
Record Response := mkResponse {
  status_code : Z;
  text : string
}.

(** What a call of [requests.get] does: raise, or return a response. *)
Abbreviation fetch_result := (exception + Response)%type.

(** ** The generator object *)

Record SitemapGenerator := mkSitemapGenerator {
  base_url : string;
  max_pages : Z;
  visited_urls : gset string;
  ignore_urls : gset string;
  domain : string
}.

(** [self.visited_urls.add(...)] leaves the other attributes alone. *)
Definition set_visited_urls (self : SitemapGenerator) (v : gset string)
  : SitemapGenerator :=
  {| base_url := base_url self; max_pages := max_pages self;
     visited_urls := v; ignore_urls := ignore_urls self;
     domain := domain self |}.

(** The state of one run of [crawl_urls]: the object, the local list
    [urls_to_crawl], and the requests issued so far with their results. *)
Record crawl_state := mkCrawlState {
  self : SitemapGenerator;
  urls_to_crawl : list string;
  fetched : list (string * fetch_result)
}.

Definition file_extensions : list string :=
  [".pdf"; ".jpg"; ".jpeg"; ".png"; ".gif";
   ".zip"; ".csv"; ".docx"; ".xlsx"; ".txt"].

(** [_is_file_url] *)
Definition _is_file_url (url : string) : bool :=
  existsb (fun ext => Str.endswith (Str.lower url) ext) file_extensions.

(** ** The sitemap document

    [generate_sitemap] builds an ElementTree, serialises it with
    [ET.tostring], reads the bytes back with [minidom.parseString] and
    prints the DOM with [toprettyxml(indent="  ")].  The tree and the
    printer are modelled in full.  The passage through [ET.tostring] and
    expat is modelled by what it does to a tree: expat refuses a document
    holding a character outside the [Char] production of XML 1.0, be it
    written as it is or as a character reference, reads every line end as
    a line feed, and yields no text node for an empty text.  Tags and
    attribute names are taken to be XML names. *)

Module Xml.

Inductive Element : Type :=
| Elem (tag : string) (attrib : list (string * string))
       (text : option string) (children : list Element).

(** [ET.Element(tag, **attrib)] *)
Definition ET_Element (tag : string) (attrib : list (string * string))
  : Element :=
  Elem tag attrib None [].

(** [ET.SubElement(parent, ...)]: the new element becomes the last child. *)
Definition append_child (parent child : Element) : Element :=
  match parent with
  | Elem t a x cs => Elem t a x (cs ++ [child])
  end.

Definition sitemap_ns : string := "http://www.sitemaps.org/schemas/sitemap/0.9".

(** Lines 97-101 of [generate_sitemap]. *)
Definition sitemap_tree (urls : list string) : Element :=
  let root := ET_Element "urlset" [("xmlns", sitemap_ns)] in
  fold_left
    (fun root url =>
       let loc := Elem "loc" [] (Some url) [] in
       let url_elem := Elem "url" [] None [loc] in
       append_child root url_elem)
    urls root.

Definition DQUOTE : ascii := "034"%char.
Definition CR : ascii := "013"%char.
Definition LF : ascii := "010"%char.
Definition newl : string := String LF "".

(** [s] between double quotes. *)
Definition quoted (s : string) : string :=
  String DQUOTE s +:+ String DQUOTE "".

(** The value of a continuation byte of UTF-8. *)
Definition continuation (c : ascii) : option N :=
  let n := N_of_ascii c in
  if ((128 <=? n) && (n <? 192))%N then Some (n - 128)%N else None.

(** The code points of a [str], read from its bytes: one to four bytes
    each, in the shortest form, the surrogates among them.  Bytes of any
    other shape are the encoding of no [str]. *)
Fixpoint code_points (s : string) : option (list N) :=
  match s with
  | EmptyString => Some []
  | String b0 s1 =>
      let n0 := N_of_ascii b0 in
      if (n0 <? 128)%N then cons n0 <$> code_points s1
      else if (n0 <? 192)%N then None
      else if (n0 <? 224)%N then
        match s1 with
        | String b1 s2 =>
            match continuation b1 with
            | Some n1 =>
                let cp := ((n0 - 192) * 64 + n1)%N in
                if (128 <=? cp)%N then cons cp <$> code_points s2 else None
            | None => None
            end
        | EmptyString => None
        end
      else if (n0 <? 240)%N then
        match s1 with
        | String b1 (String b2 s3) =>
            match continuation b1, continuation b2 with
            | Some n1, Some n2 =>
                let cp := (((n0 - 224) * 64 + n1) * 64 + n2)%N in
                if (2048 <=? cp)%N then cons cp <$> code_points s3 else None
            | _, _ => None
            end
        | _ => None
        end
      else if (n0 <? 248)%N then
        match s1 with
        | String b1 (String b2 (String b3 s4)) =>
            match continuation b1, continuation b2, continuation b3 with
            | Some n1, Some n2, Some n3 =>
                let cp := ((((n0 - 240) * 64 + n1) * 64 + n2) * 64 + n3)%N in
                if ((65536 <=? cp) && (cp <=? 1114111))%N
                then cons cp <$> code_points s4
                else None
            | _, _, _ => None
            end
        | _ => None
        end
      else None
  end.

(** The production [Char] of XML 1.0: tab, line feed, carriage return,
    U+0020 to U+D7FF, U+E000 to U+FFFD, U+10000 to U+10FFFF.  The
    control characters, the surrogates, U+FFFE and U+FFFF are outside
    it. *)
Definition Char (cp : N) : bool :=
  ((cp =? 9) || (cp =? 10) || (cp =? 13) ||
   ((32 <=? cp) && (cp <=? 55295)) ||
   ((57344 <=? cp) && (cp <=? 65533)) ||
   ((65536 <=? cp) && (cp <=? 1114111)))%N.

(** The strings expat accepts as character data, written as they are
    ([ET.tostring]) or through character references. *)
Definition xml_chars (s : string) : bool :=
  match code_points s with
  | Some cps => forallb Char cps
  | None => false
  end.

(** [c] does not occur in [s]. *)
Definition free_of (c : ascii) (s : string) : bool :=
  forallb (fun c' => negb (Ascii.eqb c' c)) (list_ascii_of_string s).

(** Line ends as an XML parser reports them. *)
Fixpoint normalize_eol (s : string) : string :=
  match s with
  | EmptyString => EmptyString
  | String c s' =>
      if Ascii.eqb c CR then
        match s' with
        | String c' _ =>
            if Ascii.eqb c' LF then normalize_eol s'
            else String LF (normalize_eol s')
        | EmptyString => String LF EmptyString
        end
      else String c (normalize_eol s')
  end.

Fixpoint well_formed (e : Element) : bool :=
  match e with
  | Elem _ attrib text children =>
      (forallb (fun kv => xml_chars kv.2) attrib &&
       match text with Some t => xml_chars t | None => true end &&
       forallb well_formed children)%bool
  end.

Fixpoint as_parsed (e : Element) : Element :=
  match e with
  | Elem tag attrib text children =>
      Elem tag attrib
        match text with
        | Some EmptyString | None => None
        | Some t => Some (normalize_eol t)
        end
        (map as_parsed children)
  end.

(** [minidom.parseString(ET.tostring(root))] *)
Definition parseString_tostring (root : Element) : exception + Element :=
  if well_formed root then inr (as_parsed root) else inl ExpatError.

(** [_write_data] of minidom: the four replacements, character by
    character. *)
Definition escape_char (c : ascii) : string :=
  if Ascii.eqb c "&" then "&amp;"
  else if Ascii.eqb c "<" then "&lt;"
  else if Ascii.eqb c DQUOTE then "&quot;"
  else if Ascii.eqb c ">" then "&gt;"
  else String c "".

Fixpoint escape (s : string) : string :=
  match s with
  | EmptyString => EmptyString
  | String c s' => escape_char c +:+ escape s'
  end.

Definition write_attribute (kv : string * string) : string :=
  " " +:+ kv.1 +:+ "=" +:+ quoted (escape kv.2).

(** [Element.writexml(writer, indent, addindent, newl)] of minidom, with a
    text child first when the element has one. *)
Fixpoint writexml (indent addindent : string) (e : Element) : string :=
  match e with
  | Elem tag attrib text children =>
      indent +:+ "<" +:+ tag +:+
      String.concat "" (map write_attribute attrib) +:+
      match text, children with
      | None, [] => "/>" +:+ newl
      | Some t, [] => ">" +:+ escape t +:+ "</" +:+ tag +:+ ">" +:+ newl
      | _, _ =>
          ">" +:+ newl +:+
          match text with
          | Some t => escape (indent +:+ addindent +:+ t +:+ newl)
          | None => ""
          end +:+
          String.concat ""
            (map (writexml (indent +:+ addindent) addindent) children) +:+
          indent +:+ "</" +:+ tag +:+ ">" +:+ newl
      end
  end.

(** [Document.toprettyxml(indent="  ")] *)
Definition toprettyxml (root : Element) : string :=
  "<?xml version=" +:+ quoted "1.0" +:+ " ?>" +:+ newl +:+
  writexml "" "  " root.

(** Lines 97-104 of [generate_sitemap]: the text of the sitemap for
    [urls], or the exception of the parser. *)
Definition sitemap_xml (urls : list string) : exception + string :=
  let root := sitemap_tree urls in
  match parseString_tostring root with
  | inr document => inr (toprettyxml document)
  | inl e => inl e
  end.

(** *** Reading a sitemap back *)

Inductive token : Type :=
| Tag (markup : string)
| Text (data : string).

Definition text_token (data : string) : list token :=
  match data with EmptyString => [] | _ => [Text data] end.

Definition snoc (s : string) (c : ascii) : string := s +:+ String c "".

(** Markup between [<] and [>], character data between markups. *)
Fixpoint lex (in_tag : bool) (acc : string) (s : string) : list token :=
  match s with
  | EmptyString => if in_tag then [Tag acc] else text_token acc
  | String c s' =>
      if in_tag then
        if Ascii.eqb c ">" then Tag acc :: lex false "" s'
        else lex true (snoc acc c) s'
      else
        if Ascii.eqb c "<" then text_token acc ++ lex true "" s'
        else lex false (snoc acc c) s'
  end.

(** [s.startswith(p)] *)
Fixpoint starts_with (p s : string) : bool :=
  match p with
  | EmptyString => true
  | String a p' =>
      match s with
      | String b s' => (Ascii.eqb a b && starts_with p' s')%bool
      | EmptyString => false
      end
  end.

(** The predefined entities, replaced from left to right; [skip] counts
    the characters of a reference just replaced. *)
Fixpoint unescape_from (skip : nat) (s : string) : string :=
  match s with
  | EmptyString => EmptyString
  | String c s' =>
      match skip with
      | S k => unescape_from k s'
      | O =>
          if negb (Ascii.eqb c "&") then String c (unescape_from 0 s')
          else if starts_with "amp;" s' then String "&" (unescape_from 4 s')
          else if starts_with "lt;" s' then String "<" (unescape_from 3 s')
          else if starts_with "gt;" s' then String ">" (unescape_from 3 s')
          else if starts_with "quot;" s' then
            String DQUOTE (unescape_from 5 s')
          else if starts_with "apos;" s' then
            String "'" (unescape_from 5 s')
          else String c (unescape_from 0 s')
      end
  end.

Definition unescape (s : string) : string := unescape_from 0 s.

(** The text of every [loc] element, in document order. *)
Fixpoint locs (tokens : list token) : list string :=
  match tokens with
  | [] => []
  | Text _ :: rest => locs rest
  | Tag markup :: rest =>
      if String.eqb markup "loc/" then "" :: locs rest
      else if String.eqb markup "loc" then
        match rest with
        | Text data :: Tag markup' :: rest' =>
            if String.eqb markup' "/loc" then unescape data :: locs rest'
            else locs rest
        | Tag markup' :: rest' =>
            if String.eqb markup' "/loc" then "" :: locs rest'
            else locs rest
        | _ => locs rest
        end
      else locs rest
  end.

Definition read_sitemap (document : string) : list string :=
  locs (lex false "" document).

(** *** The text expected for a list of URLs *)

(** The URLs that go through the writer unchanged: those made of the
    characters of XML, the carriage return apart. *)
Definition plain_text (s : string) : Prop :=
  (xml_chars s && free_of CR s)%bool = true.

(** The [url] element that the loop of [generate_sitemap] appends. *)
Definition url_element (url : string) : Element :=
  Elem "url" [] None [Elem "loc" [] (Some url) []].

(** One [url] element with its [loc], as the document shows it. *)
Definition entry_text (url : string) : string :=
  "  <url>" +:+ newl +:+
  "    <loc" +:+
  match url with
  | EmptyString => "/>"
  | _ => ">" +:+ escape url +:+ "</loc>"
  end +:+ newl +:+
  "  </url>" +:+ newl.

Definition sitemap_text (urls : list string) : string :=
  "<?xml version=" +:+ quoted "1.0" +:+ " ?>" +:+ newl +:+
  "<urlset xmlns=" +:+ quoted sitemap_ns +:+
  match urls with
  | [] => "/>" +:+ newl
  | _ =>
      ">" +:+ newl +:+
      String.concat "" (map entry_text urls) +:+
      "</urlset>" +:+ newl
  end.

End Xml.

(** ** A concrete network, to run the crawler on

    Instances of the library parameters for closed examples: a URL splitter
    that follows [urllib.parse.urlsplit] on scheme, authority, path, query
    and fragment, and raises [ValueError] on a bracket without its partner
    in the authority; [urljoin] on absolute and absolute-path references;
    an extractor of the [href="..."] attributes; a fetcher that serves a
    fixed table of pages and fails to connect to anything else. *)

Module Scenario.

Fixpoint break (stop : ascii -> bool) (s : string) : string * string :=
  match s with
  | EmptyString => (EmptyString, EmptyString)
  | String c s' =>
      if stop c then (EmptyString, s)
      else let (a, b) := break stop s' in (String c a, b)
  end.

Definition one_of (chars : string) (c : ascii) : bool :=
  existsb (Ascii.eqb c) (list_ascii_of_string chars).

Definition is_letter (c : ascii) : bool :=
  let n := nat_of_ascii (Str.lower_char c) in ((97 <=? n) && (n <=? 122))%nat.

Definition is_scheme_char (c : ascii) : bool :=
  let n := nat_of_ascii c in
  (is_letter c || ((48 <=? n) && (n <=? 57))%nat || one_of "+-." c)%bool.

Definition is_scheme (s : string) : bool :=
  match s with
  | EmptyString => false
  | String c _ =>
      (is_letter c && forallb is_scheme_char (list_ascii_of_string s))%bool
  end.

Definition urlparse (url : string) : ParseResult :=
  let (scheme, rest) :=
    match break (one_of ":") url with
    | (pre, String _ post) =>
        if is_scheme pre then (Str.lower pre, post) else ("", url)
    | _ => ("", url)
    end in
  let (netloc, rest) :=
    match rest with
    | String "/" (String "/" authority) => break (one_of "/?#") authority
    | _ => ("", rest)
    end in
  let (rest, _) := break (one_of "#") rest in
  let (path, _) := break (one_of "?") rest in
  mkParseResult scheme netloc path.

Definition ValueError : exception := OtherError "ValueError".

(** [urlsplit] raises [ValueError("Invalid IPv6 URL")] when the authority
    holds one of the two brackets without the other. *)
Definition urlparse_raises (url : string) : option exception :=
  let authority := list_ascii_of_string (netloc (urlparse url)) in
  if xorb (existsb (Ascii.eqb "[") authority)
          (existsb (Ascii.eqb "]") authority)
  then Some ValueError
  else None.

Definition urljoin (base url : string) : string :=
  if String.eqb url "" then base
  else if negb (String.eqb (scheme (urlparse url)) "") then url
  else match url with
       | String "/" _ =>
           scheme (urlparse base) +:+ "://" +:+ netloc (urlparse base) +:+ url
       | _ => url
       end.

(** [urljoin] splits both of its arguments, unless one is empty. *)
Definition urljoin_raises (base url : string) : option exception :=
  if (String.eqb base "" || String.eqb url "")%bool then None
  else match urlparse_raises base with
       | Some e => Some e
       | None => urlparse_raises url
       end.

(** The text up to the closing quote of an attribute value. *)
Definition attribute_value (s : string) : string :=
  (break (Ascii.eqb Xml.DQUOTE) s).1.

Fixpoint find_all_a_href (html : string) : list string :=
  match html with
  | EmptyString => []
  | String c html' =>
      if String.prefix ("href=" +:+ String Xml.DQUOTE "") html
      then attribute_value (String.substring 6 (String.length html) html)
             :: find_all_a_href html'
      else find_all_a_href html'
  end.

Definition BeautifulSoup_raises (html : string) : option exception := None.

(** A page served with status 200 and anchors to [links]. *)
Definition page (links : list string) : fetch_result :=
  inr (mkResponse 200
         (String.concat ""
            (map (fun l => "<a href=" +:+ Xml.quoted l +:+ ">x</a>") links))).

(** The fetcher of a fixed site: the table answers, whatever the time;
    any other URL raises a connection error. *)
Definition serve (site : list (string * fetch_result))
    (n : nat) (url : string) : fetch_result :=
  match list_find (fun entry => entry.1 = url) site with
  | Some (_, (_, result)) => result
  | None => inl RequestException
  end.

End Scenario.

(** ** The crawler *)

(** What a call of [generate_sitemap] leaves behind: how it completed, the
    state of the crawl, and the text handed to the output file, if any. *)
Record outcome := mkOutcome {
  completed : completion;
  final : crawl_state;
  written : option string
}.

(** What a run of [main] leaves behind: the exception reported by its
    [except] clause, if any, the requests issued, and the output file. *)
Record main_outcome := mkMainOutcome {
  error_printed : option exception;
  requests : list (string * fetch_result);
  output_file : option string
}.

Section Crawler.

(** [urllib.parse.urlparse] and [urllib.parse.urljoin]: what the call
    returns, and the exception it raises instead, if any. *)
Variable urlparse : string -> ParseResult.
Variable urlparse_raises : string -> option exception.
Variable urljoin : string -> string -> string.
Variable urljoin_raises : string -> string -> option exception.

(** [link['href'] for link in BeautifulSoup(text, 'html.parser')
    .find_all('a', href=True)], and the exception the parser raises
    instead, if any. *)
Variable find_all_a_href : string -> list string.
Variable BeautifulSoup_raises : string -> option exception.

(** [requests.get(url, timeout=5)], as the [n]-th request of the run. *)
Variable requests_get : nat -> string -> fetch_result.

(** [SitemapGenerator.__init__]: the object it leaves when it returns. *)
Definition __init__ (base_url : string) (max_pages : Z)
    (ignore_urls : option (list string)) : SitemapGenerator :=
  {| base_url := base_url;
     max_pages := max_pages;
     visited_urls := ∅;
     ignore_urls := match ignore_urls with
                    | Some ((_ :: _) as l) => list_to_set l
                    | _ => ∅
                    end;
     domain := netloc (urlparse base_url) |}.

(** [__init__] raises what [urlparse(base_url)] raises, on line 22. *)
Definition __init___raises (base_url : string) : option exception :=
  urlparse_raises base_url.

(** The six conjuncts of [is_valid_url], one by one. *)
Definition same_domain (self : SitemapGenerator) (url : string) : bool :=
  bool_decide (netloc (urlparse url) = domain self).

Definition http_scheme (url : string) : bool :=
  bool_decide (scheme (urlparse url) ∈ ["http"; "https"]).

Definition not_file (url : string) : bool := negb (_is_file_url url).

Definition not_visited (self : SitemapGenerator) (url : string) : bool :=
  bool_decide (url ∉ visited_urls self).

Definition not_ignored (self : SitemapGenerator) (url : string) : bool :=
  bool_decide (url ∉ ignore_urls self).

Definition below_cap (self : SitemapGenerator) : bool :=
  Z.of_nat (size (visited_urls self)) <? max_pages self.

(** [is_valid_url]: the value it returns. *)
Definition is_valid_url (self : SitemapGenerator) (url : string) : bool :=
  same_domain self url &&
  http_scheme url &&
  not_file url &&
  not_visited self url &&
  not_ignored self url &&
  below_cap self.

(** [is_valid_url] raises what [urlparse(url)] raises, on line 31. *)
Definition is_valid_url_raises (url : string) : option exception :=
  urlparse_raises url.

(** The validity predicate as the specification words it, with the suffix
    test applied to the path of the URL. *)
Definition spec_isValid (self : SitemapGenerator) (url : string) : Prop :=
  netloc (urlparse url) = domain self /\
  (scheme (urlparse url) = "http" \/ scheme (urlparse url) = "https") /\
  (forall ext, ext ∈ file_extensions ->
     Str.endswith (Str.lower (path (urlparse url))) ext = false) /\
  (url ∉ visited_urls self) /\
  (url ∉ ignore_urls self) /\
  Z.of_nat (size (visited_urls self)) < max_pages self.

(** The [for link in ...] loop of [crawl_urls]: every link is resolved
    against the current URL and appended when it is valid.  The loop ends
    at the first link on which [urljoin] or [is_valid_url] raises, with
    the frontier as the links before have left it. *)
Fixpoint enqueue_links (self : SitemapGenerator) (current_url : string)
    (hrefs : list string) (urls_to_crawl : list string)
  : completion * list string :=
  match hrefs with
  | [] => (Normal, urls_to_crawl)
  | href :: hrefs' =>
      match urljoin_raises current_url href with
      | Some e => (Raised e, urls_to_crawl)
      | None =>
          let absolute_url := urljoin current_url href in
          match is_valid_url_raises absolute_url with
          | Some e => (Raised e, urls_to_crawl)
          | None =>
              enqueue_links self current_url hrefs'
                (if is_valid_url self absolute_url
                 then urls_to_crawl ++ [absolute_url]
                 else urls_to_crawl)
          end
      end
  end.

(** The condition of the [while] loop. *)
Definition loop_cond (st : crawl_state) : bool :=
  match urls_to_crawl st with [] => false | _ :: _ => true end &&
  below_cap (self st).

(** The body of the [try] statement, lines 69-81, for the URL popped. *)
Definition try_body (st : crawl_state) (current_url : string)
    (rest : list string) : completion * crawl_state :=
  let result := requests_get (length (fetched st)) current_url in
  let log := fetched st ++ [(current_url, result)] in
  match result with
  | inl e => (Raised e, mkCrawlState (self st) rest log)
  | inr response =>
      if status_code response =? 200 then
        let self' :=
          set_visited_urls (self st)
            ({[current_url]} ∪ visited_urls (self st)) in
        match BeautifulSoup_raises (text response) with
        | Some e => (Raised e, mkCrawlState self' rest log)
        | None =>
            let hrefs := find_all_a_href (text response) in
            let links := enqueue_links self' current_url hrefs rest in
            (links.1, mkCrawlState self' links.2 log)
        end
      else
        (Normal, mkCrawlState (self st) rest log)
  end.

(** One pass through the body of the [while] loop: the [except] clause
    catches what is a [RequestException], wherever in the [try] it was
    raised, and lets the rest through. *)
Definition loop_body (st : crawl_state) : completion * crawl_state :=
  match urls_to_crawl st with
  | [] => (Raised IndexError, st)
  | current_url :: rest =>
      if bool_decide (current_url ∈ visited_urls (self st)) then
        (Normal, mkCrawlState (self st) rest (fetched st))
      else
        let tried := try_body st current_url rest in
        match tried.1 with
        | Normal => (Normal, tried.2)
        | Raised e =>
            if is_RequestException e then (Normal, tried.2)
            else (Raised e, tried.2)
        end
  end.

(** What decreases along the loop: the room left under the cap, then the
    length of the frontier. *)
Definition budget (st : crawl_state) : nat * nat :=
  (Z.to_nat (max_pages (self st) - Z.of_nat (size (visited_urls (self st)))),
   length (urls_to_crawl st)).

Lemma loop_body_decreases (st : crawl_state) :
  loop_cond st = true ->
  Subterm.lexprod nat nat lt lt (budget (loop_body st).2) (budget st).
Proof.
  unfold loop_cond, loop_body, below_cap.
  destruct st as [g [|u q] log]; simpl; [done |].
  intros Hcap%Z.ltb_lt.
  case_bool_decide as Hin; [unfold budget; simpl; right; lia |].
  assert (Subterm.lexprod nat nat lt lt
            (budget (try_body (mkCrawlState g (u :: q) log) u q).2)
            (budget (mkCrawlState g (u :: q) log))) as Htry.
  { unfold try_body, budget. simpl.
    destruct (requests_get _ u) as [e | r]; simpl; [right; lia |].
    destruct (status_code r =? 200); simpl; [| right; lia].
    destruct (BeautifulSoup_raises (text r)); simpl; left;
      rewrite size_union, size_singleton by set_solver; lia. }
  destruct (try_body _ u q).1 as [|e]; [done |].
  by destruct (is_RequestException e).
Qed.

(** The [while] loop of [crawl_urls], run to its end: how it completed
    and the state it stopped in. *)
Equations? crawl_loop (st : crawl_state) : completion * crawl_state
  by wf (budget st) (Subterm.lexprod nat nat lt lt) :=
crawl_loop st with Logic.inspect (loop_cond st) := {
  | exist _ false _ => (Normal, st)
  | exist _ true Hcond =>
      match (loop_body st).1 with
      | Normal => crawl_loop (loop_body st).2
      | Raised e => (Raised e, (loop_body st).2)
      end }.
Proof. by apply loop_body_decreases. Qed.

(** The loop with a bound on the number of passes; it computes. *)
Fixpoint crawl_loop_fuel (n : nat) (st : crawl_state)
  : option (completion * crawl_state) :=
  match n with
  | O => None
  | S n' =>
      if loop_cond st then
        match (loop_body st).1 with
        | Normal => crawl_loop_fuel n' (loop_body st).2
        | Raised e => Some (Raised e, (loop_body st).2)
        end
      else Some (Normal, st)
  end.

(** The state [crawl_urls] enters its loop in, in a process that has
    issued no request yet. *)
Definition start (generator : SitemapGenerator) : crawl_state :=
  let urls_to_crawl := [base_url generator] in
  mkCrawlState generator urls_to_crawl [].

(** [reaches st0 (c, st)]: the loop started in [st0] stands in [st] at
    the top of the [while], or has just left it through exception [e]
    when [c = Raised e]. *)
Inductive reaches (st0 : crawl_state) : completion * crawl_state -> Prop :=
| reaches_start : reaches st0 (Normal, st0)
| reaches_step st :
    reaches st0 (Normal, st) ->
    loop_cond st = true ->
    reaches st0 (loop_body st).

(** The URL of a log entry whose request returned status 200. *)
Definition visit_of (entry : string * fetch_result) : option string :=
  match entry.2 with
  | inr response => if status_code response =? 200 then Some entry.1 else None
  | inl _ => None
  end.

(** The URLs fetched with success, in the order of their requests. *)
Definition visit_log (log : list (string * fetch_result)) : list string :=
  omap visit_of log.

(** A request that failed: a transport error, or a status other than 200. *)
Definition failed (result : fetch_result) : Prop :=
  match result with
  | inl e => is_RequestException e = true
  | inr response => status_code response <> 200
  end.

(** What handling one link may raise: the exception of [urljoin], or
    that of [is_valid_url] on the URL resolved. *)
Definition link_raises (current_url href : string) : option exception :=
  match urljoin_raises current_url href with
  | Some e => Some e
  | None => is_valid_url_raises (urljoin current_url href)
  end.

(** The links the loop over the anchors gets through: those before the
    first one that raises. *)
Fixpoint links_handled (current_url : string) (hrefs : list string)
  : list string :=
  match hrefs with
  | [] => []
  | href :: hrefs' =>
      match link_raises current_url href with
      | Some _ => []
      | None => href :: links_handled current_url hrefs'
      end
  end.

(** How the loop over the anchors ends. *)
Fixpoint links_completion (current_url : string) (hrefs : list string)
  : completion :=
  match hrefs with
  | [] => Normal
  | href :: hrefs' =>
      match link_raises current_url href with
      | Some e => Raised e
      | None => links_completion current_url hrefs'
      end
  end.

(** [e] is raised while the page fetched from [current_url] is handled:
    by the parser, or by [urljoin] or [is_valid_url] on one of its
    links. *)
Definition page_raises (current_url : string) (response : Response)
    (e : exception) : Prop :=
  BeautifulSoup_raises (text response) = Some e \/
  exists href,
    href ∈ find_all_a_href (text response) /\
    link_raises current_url href = Some e.

(** [e] is raised in the pass that requested [url] with [result]: by the
    request, or, the request answered with status 200, by the handling
    of the page. *)
Definition raised_in_pass (url : string) (result : fetch_result)
    (e : exception) : Prop :=
  result = inl e \/
  exists response,
    result = inr response /\ status_code response = 200 /\
    page_raises url response e.

(** One pass of the loop, by cases: the head of the frontier is skipped
    when visited, and otherwise requested; the request succeeds, fails, or
    raises what the loop does not catch.  After a request that succeeds
    the links [handled] are links of the page, none of which raises, and
    the pass ends with what was raised, unless it is caught. *)
Inductive pass (st : crawl_state) : completion * crawl_state -> Prop :=
| pass_skip u rest :
    urls_to_crawl st = u :: rest ->
    u ∈ visited_urls (self st) ->
    pass st (Normal, mkCrawlState (self st) rest (fetched st))
| pass_visit u rest response handled c :
    urls_to_crawl st = u :: rest ->
    u ∉ visited_urls (self st) ->
    requests_get (length (fetched st)) u = inr response ->
    status_code response = 200 ->
    handled `prefix_of` find_all_a_href (text response) ->
    Forall (fun href => link_raises u href = None) handled ->
    (forall e, c = Raised e ->
               is_RequestException e = false /\ page_raises u response e) ->
    pass st
      (c,
       mkCrawlState
         (set_visited_urls (self st) ({[u]} ∪ visited_urls (self st)))
         (rest ++
          List.filter
            (is_valid_url
               (set_visited_urls (self st) ({[u]} ∪ visited_urls (self st))))
            (map (urljoin u) handled))
         (fetched st ++ [(u, inr response)]))
| pass_fail u rest :
    urls_to_crawl st = u :: rest ->
    u ∉ visited_urls (self st) ->
    failed (requests_get (length (fetched st)) u) ->
    pass st
      (Normal,
       mkCrawlState (self st) rest
         (fetched st ++ [(u, requests_get (length (fetched st)) u)]))
| pass_raise u rest e :
    urls_to_crawl st = u :: rest ->
    u ∉ visited_urls (self st) ->
    requests_get (length (fetched st)) u = inl e ->
    is_RequestException e = false ->
    pass st (Raised e, mkCrawlState (self st) rest (fetched st ++ [(u, inl e)])).

(** The requests of a log before [bound] that link to [url]: a page
    fetched with status 200 whose anchors hold a reference resolving to
    it. *)
Definition linked_before (log : list (string * fetch_result)) (bound : nat)
    (url : string) : Prop :=
  exists k page response href,
    (k < bound)%nat /\
    log !! k = Some (page, inr response) /\
    status_code response = 200 /\
    href ∈ find_all_a_href (text response) /\
    url = urljoin page href.

(** The URLs the frontier may ever hold: the base URL, and the links that
    passed the four state-independent conjuncts of the filter. *)
Definition eligible (g : SitemapGenerator) (url : string) : Prop :=
  url = base_url g \/
  (same_domain g url = true /\ http_scheme url = true /\
   not_file url = true /\ not_ignored g url = true).

Record crawl_inv (g : SitemapGenerator) (st : crawl_state) : Prop := {
  inv_base : base_url (self st) = base_url g;
  inv_max : max_pages (self st) = max_pages g;
  inv_ignore : ignore_urls (self st) = ignore_urls g;
  inv_domain : domain (self st) = domain g;
  inv_frontier : Forall (eligible g) (urls_to_crawl st);
  inv_requested : Forall (eligible g) (fetched st).*1;
  inv_log : forall k url result,
    fetched st !! k = Some (url, result) -> result = requests_get k url;
  inv_visited : visited_urls (self st) = list_to_set (visit_log (fetched st));
  inv_nodup : NoDup (visit_log (fetched st));
  inv_cap : Z.of_nat (size (visited_urls (self st))) <= Z.max 0 (max_pages g)
}.

(** [list(s)] for a set [s]: each element once, in an order of the
    set's own choosing. *)
Variable list_of_set : gset string -> list string.
Hypothesis list_of_set_perm : forall s, list_of_set s ≡ₚ elements s.

(** [crawl_urls]: the value returned (or the exception raised) and the
    state left behind. *)
Definition crawl_urls (generator : SitemapGenerator)
  : (exception + list string) * crawl_state :=
  match crawl_loop (start generator) with
  | (Normal, st) => (inr (list_of_set (visited_urls (self st))), st)
  | (Raised e, st) => (inl e, st)
  end.

(** [open(output_file, 'w', encoding='utf-8')] followed by [f.write]. *)
Variable write_file : string -> string -> completion.

(** [generate_sitemap] *)
Definition generate_sitemap (generator : SitemapGenerator)
    (output_file : string) : outcome :=
  match crawl_urls generator with
  | (inr urls, st) =>
      match Xml.sitemap_xml urls with
      | inr xml_str =>
          mkOutcome (write_file output_file xml_str) st (Some xml_str)
      | inl e => mkOutcome (Raised e) st None
      end
  | (inl e, st) => mkOutcome (Raised e) st None
  end.

(** [main], from the parsed arguments on: the [except] clause reports
    what the constructor or [generate_sitemap] raises. *)
Definition main (url : string) (max_pages : Z) (output : string)
    (ignore : list string) : main_outcome :=
  match __init___raises url with
  | Some e =>
      {| error_printed := Some e; requests := []; output_file := None |}
  | None =>
      let sitemap_gen := __init__ url max_pages (Some ignore) in
      let out := generate_sitemap sitemap_gen output in
      {| error_printed := match completed out with
                          | Raised e => Some e
                          | Normal => None
                          end;
         requests := fetched (final out);
         output_file := written out |}
  end.
(** ** Properties *)

(** *** Strings *)

Lemma endswith_unfold (s e : string) :
  Str.endswith s e =
  (String.eqb s e ||
   match s with
   | EmptyString => false
   | String _ s' => Str.endswith s' e
   end)%bool.
Proof. by destruct s. Qed.

Lemma endswith_spec (s e : string) :
  Str.endswith s e = true <-> exists p, s = p +:+ e.
Proof.
  induction s as [|c s IH]; rewrite endswith_unfold.
  - rewrite orb_false_r, String.eqb_eq. split.
    + intros <-. by exists "".
    + intros [p Hp]. destruct p; simpl in Hp; [done | discriminate].
  - rewrite orb_true_iff, String.eqb_eq, IH. split.
    + intros [<- | [p ->]]; [by exists "" | by exists (String c p)].
    + intros [[|c' p] Hp]; simpl in Hp; [by left | right].
      injection Hp as _ ->. by exists p.
Qed.

Lemma _is_file_url_false (url : string) :
  _is_file_url url = false <->
  forall ext, ext ∈ file_extensions -> ~ exists p, Str.lower url = p +:+ ext.
Proof.
  unfold _is_file_url. rewrite <- not_true_iff_false, existsb_exists. split.
  - intros Hnone ext Hext%list_elem_of_In Hsuffix%endswith_spec.
    apply Hnone. by exists ext.
  - intros Hnone (ext & Hext%list_elem_of_In & Hsuffix%endswith_spec).
    by apply (Hnone ext).
Qed.

(** *** The loop *)

Lemma crawl_loop_eq (st : crawl_state) :
  crawl_loop st =
  if loop_cond st then
    match (loop_body st).1 with
    | Normal => crawl_loop (loop_body st).2
    | Raised e => (Raised e, (loop_body st).2)
    end
  else (Normal, st).
Proof.
  rewrite crawl_loop_equation_1.
  generalize (Logic.inspect (loop_cond st)). intros [b Hcond].
  etransitivity; [| by rewrite Hcond].
  by destruct b.
Qed.

(** Induction along the loop. *)
Lemma loop_induction (P : crawl_state -> Prop) :
  (forall st,
      (loop_cond st = true -> (loop_body st).1 = Normal ->
       P (loop_body st).2) -> P st) ->
  forall st, P st.
Proof.
  intros Hstep st.
  pose proof (Subterm.wf_lexprod nat nat lt lt lt_wf lt_wf) as Hwf.
  remember (budget st) as b eqn:Hb. revert st Hb.
  induction (Hwf b) as [b _ IH]. intros st ->.
  apply Hstep. intros Hcond _.
  by apply (IH _ (loop_body_decreases st Hcond)).
Qed.

Lemma crawl_loop_fuel_sound (n : nat) (st : crawl_state)
    (r : completion * crawl_state) :
  crawl_loop_fuel n st = Some r -> crawl_loop st = r.
Proof.
  revert st. induction n as [|n IH]; intros st; simpl; [done |].
  rewrite crawl_loop_eq. destruct (loop_cond st); [| congruence].
  destruct (loop_body st).1; [apply IH | congruence].
Qed.

Lemma crawl_loop_fuel_enough (st : crawl_state) :
  exists n, crawl_loop_fuel n st = Some (crawl_loop st).
Proof.
  induction st as [st IH] using loop_induction.
  rewrite crawl_loop_eq. destruct (loop_cond st) eqn:Hcond.
  - destruct (loop_body st).1 eqn:Hbody.
    + destruct (IH eq_refl eq_refl) as [n Hn]. exists (S n). simpl.
      by rewrite Hcond, Hbody.
    + exists 1%nat. simpl. by rewrite Hcond, Hbody.
  - exists 1%nat. simpl. by rewrite Hcond.
Qed.

Lemma crawl_loop_reaches (st0 st : crawl_state) :
  reaches st0 (Normal, st) -> reaches st0 (crawl_loop st).
Proof.
  induction st as [st IH] using loop_induction. intros Hreach.
  rewrite crawl_loop_eq.
  destruct (loop_cond st) eqn:Hcond; [| done].
  pose proof (reaches_step st0 st Hreach Hcond) as Hnext.
  destruct (loop_body st) as [[|e] st'] eqn:Hbody; simpl in *; [| done].
  by apply IH.
Qed.

Lemma crawl_loop_stops (st : crawl_state) :
  (crawl_loop st).1 = Normal -> loop_cond (crawl_loop st).2 = false.
Proof.
  induction st as [st IH] using loop_induction.
  rewrite crawl_loop_eq.
  destruct (loop_cond st) eqn:Hcond; [| done].
  destruct (loop_body st) as [[|e] st'] eqn:Hbody; simpl in *; [| done].
  by apply IH.
Qed.

(** *** One pass of the loop *)

Lemma enqueue_links_eq (g : SitemapGenerator) (current_url : string)
    (hrefs queue : list string) :
  enqueue_links g current_url hrefs queue =
  (links_completion current_url hrefs,
   queue ++ List.filter (is_valid_url g)
              (map (urljoin current_url) (links_handled current_url hrefs))).
Proof.
  revert queue. induction hrefs as [|h hrefs IH]; intros queue; simpl.
  - by rewrite app_nil_r.
  - unfold link_raises.
    destruct (urljoin_raises current_url h); simpl; [by rewrite app_nil_r |].
    destruct (is_valid_url_raises (urljoin current_url h)); simpl;
      [by rewrite app_nil_r |].
    rewrite IH. destruct (is_valid_url g (urljoin current_url h)); [| done].
    by rewrite <- app_assoc.
Qed.

Lemma links_handled_prefix (current_url : string) (hrefs : list string) :
  links_handled current_url hrefs `prefix_of` hrefs.
Proof.
  induction hrefs as [|h hrefs IH]; simpl; [done |].
  destruct (link_raises current_url h); [apply prefix_nil |].
  by apply prefix_cons.
Qed.

Lemma links_handled_ok (current_url : string) (hrefs : list string) :
  Forall (fun href => link_raises current_url href = None)
    (links_handled current_url hrefs).
Proof.
  induction hrefs as [|h hrefs IH]; simpl; [done |].
  destruct (link_raises current_url h) eqn:Hh; [done |]. by constructor.
Qed.

Lemma links_handled_all (current_url : string) (hrefs : list string) :
  (forall href, href ∈ hrefs -> link_raises current_url href = None) ->
  links_handled current_url hrefs = hrefs /\
  links_completion current_url hrefs = Normal.
Proof.
  induction hrefs as [|h hrefs IH]; simpl; [done |]. intros Hnone.
  rewrite (Hnone h) by left.
  destruct IH as [-> ->]; [| done]. intros href Hin. apply Hnone. by right.
Qed.

Lemma links_completion_raised (current_url : string) (hrefs : list string)
    (e : exception) :
  links_completion current_url hrefs = Raised e ->
  exists href, href ∈ hrefs /\ link_raises current_url href = Some e.
Proof.
  induction hrefs as [|h hrefs IH]; simpl; [done |].
  destruct (link_raises current_url h) as [e' |] eqn:Hh.
  - intros [= ->]. exists h. split; [by left | done].
  - intros (href & Hin & Hraise)%IH. exists href. split; [by right | done].
Qed.

Lemma prefix_elem_of (l k : list string) (x : string) :
  l `prefix_of` k -> x ∈ l -> x ∈ k.
Proof. intros [t ->] Hx. apply elem_of_app. by left. Qed.

Lemma loop_body_pass (st : crawl_state) :
  loop_cond st = true -> pass st (loop_body st).
Proof.
  unfold loop_cond, loop_body.
  destruct (urls_to_crawl st) as [|u rest] eqn:Hq; [done |]. intros _.
  case_bool_decide as Hin; [by eapply pass_skip |].
  unfold try_body.
  destruct (requests_get (length (fetched st)) u) as [e | r] eqn:Hget; simpl.
  { destruct (is_RequestException e) eqn:He.
    - rewrite <- Hget. apply pass_fail; [done | done |]. by rewrite Hget.
    - by apply pass_raise. }
  destruct (status_code r =? 200) eqn:Hstatus; simpl.
  2: { rewrite <- Hget. apply pass_fail; [done | done |]. rewrite Hget.
       by apply Z.eqb_neq. }
  apply Z.eqb_eq in Hstatus.
  set (g' := set_visited_urls (self st) ({[u]} ∪ visited_urls (self st))).
  assert (forall c handled,
            handled `prefix_of` find_all_a_href (text r) ->
            Forall (fun href => link_raises u href = None) handled ->
            (forall e, c = Raised e -> page_raises u r e) ->
            pass st
              match c with
              | Normal =>
                  (Normal,
                   mkCrawlState g'
                     (rest ++ List.filter (is_valid_url g')
                                (map (urljoin u) handled))
                     (fetched st ++ [(u, inr r)]))
              | Raised e =>
                  if is_RequestException e
                  then (Normal,
                        mkCrawlState g'
                          (rest ++ List.filter (is_valid_url g')
                                     (map (urljoin u) handled))
                          (fetched st ++ [(u, inr r)]))
                  else (Raised e,
                        mkCrawlState g'
                          (rest ++ List.filter (is_valid_url g')
                                     (map (urljoin u) handled))
                          (fetched st ++ [(u, inr r)]))
              end) as Hvisit.
  { intros c handled Hpre Hlinks Hc.
    destruct c as [|e]; [by apply pass_visit |].
    destruct (is_RequestException e) eqn:He; apply pass_visit; try done.
    intros e' [= <-]. split; [done | by apply Hc]. }
  destruct (BeautifulSoup_raises (text r)) as [e |] eqn:Hsoup; simpl.
  - specialize (Hvisit (Raised e) [] (prefix_nil _) (Forall_nil_2 _)).
    simpl in Hvisit.
    rewrite app_nil_r in Hvisit. apply Hvisit.
    intros e' [= <-]. by left.
  - rewrite enqueue_links_eq. simpl.
    apply (Hvisit (links_completion u (find_all_a_href (text r)))).
    + apply links_handled_prefix.
    + apply links_handled_ok.
    + intros e Hraise%links_completion_raised. by right.
Qed.

(** An exception leaves the body from the request or from the handling of
    the page it returned, and is never one the [except] clause catches. *)
Lemma loop_body_raises (st : crawl_state) (e : exception) :
  loop_cond st = true -> (loop_body st).1 = Raised e ->
  is_RequestException e = false /\
  exists u result,
    last (fetched (loop_body st).2) = Some (u, result) /\
    raised_in_pass u result e.
Proof.
  intros Hcond.
  destruct (loop_body_pass st Hcond)
    as [u rest Hq Hin | u rest resp handled c Hq Hin Hget Hs Hpre Hlinks Hc
       | u rest Hq Hin Hf | u rest e' Hq Hin Hget He]; simpl; try done.
  - intros ->. destruct (Hc e eq_refl) as [He Hpage]. split; [done |].
    exists u, (inr resp). rewrite last_snoc. split; [done |]. right.
    by exists resp.
  - intros [= ->]. split; [done |].
    exists u, (inl e). rewrite last_snoc. split; [done |]. by left.
Qed.

Lemma crawl_loop_raises (st : crawl_state) (e : exception) :
  (crawl_loop st).1 = Raised e ->
  is_RequestException e = false /\
  exists u result,
    last (fetched (crawl_loop st).2) = Some (u, result) /\
    raised_in_pass u result e.
Proof.
  induction st as [st IH] using loop_induction.
  rewrite crawl_loop_eq.
  destruct (loop_cond st) eqn:Hcond; [| done].
  destruct (loop_body st).1 as [|e'] eqn:Hbody; simpl.
  - by apply IH.
  - intros [= <-]. by apply (loop_body_raises st).
Qed.

(** *** What the loop keeps true *)

Lemma is_valid_url_eligible (g g' : SitemapGenerator) (url : string) :
  domain g' = domain g -> ignore_urls g' = ignore_urls g ->
  is_valid_url g' url = true -> eligible g url.
Proof.
  unfold is_valid_url, eligible, same_domain, not_ignored.
  intros -> ->. rewrite !andb_true_iff.
  intros (((((? & ?) & ?) & _) & ?) & _). by right.
Qed.

Lemma visit_log_snoc (log : list (string * fetch_result)) (url : string)
    (result : fetch_result) :
  visit_log (log ++ [(url, result)]) =
  visit_log log ++ match visit_of (url, result) with
                   | Some u => [u]
                   | None => []
                   end.
Proof.
  unfold visit_log. rewrite omap_app. simpl.
  by destruct (visit_of (url, result)).
Qed.

Lemma visit_log_succeeded (log : list (string * fetch_result)) (u : string) :
  u ∈ visit_log log ->
  exists k response,
    log !! k = Some (u, inr response) /\ status_code response = 200.
Proof.
  unfold visit_log. rewrite list_elem_of_omap.
  intros ([x r] & [k Hk]%list_elem_of_lookup & Hvisit).
  unfold visit_of in Hvisit. simpl in *.
  destruct r as [|r]; [done |].
  destruct (status_code r =? 200) eqn:Hstatus; [| done].
  injection Hvisit as ->. exists k, r. by apply Z.eqb_eq in Hstatus.
Qed.

Lemma visit_log_requested (log : list (string * fetch_result)) (u : string) :
  u ∈ visit_log log -> u ∈ log.*1.
Proof.
  unfold visit_log. rewrite list_elem_of_omap, list_elem_of_fmap.
  intros ([x r] & Hin & Hvisit). exists (x, r). split; [| done].
  unfold visit_of in Hvisit. simpl in *.
  destruct r as [|r]; [done |]. destruct (_ =? _); congruence.
Qed.

Lemma crawl_inv_start (g : SitemapGenerator) :
  visited_urls g = ∅ -> crawl_inv g (start g).
Proof.
  intros Hfresh. split; simpl; try done.
  - apply Forall_singleton. by left.
  - constructor.
  - rewrite Hfresh, size_empty. lia.
Qed.

Lemma log_snoc_genuine (log : list (string * fetch_result)) (u : string) :
  (forall k url result,
      log !! k = Some (url, result) -> result = requests_get k url) ->
  forall k url result,
    (log ++ [(u, requests_get (length log) u)]) !! k = Some (url, result) ->
    result = requests_get k url.
Proof.
  intros Hlog k url result [Hold | [Hk Hnew]]%lookup_app_Some.
  - by apply Hlog.
  - apply list_lookup_singleton_Some in Hnew as [Hz [= <- <-]].
    by replace k with (length log) by lia.
Qed.

Lemma crawl_inv_step (g : SitemapGenerator) (st : crawl_state) :
  crawl_inv g st -> loop_cond st = true -> crawl_inv g (loop_body st).2.
Proof.
  clear list_of_set list_of_set_perm write_file.
  intros [Hb Hm Hi Hd Hq Hr Hl Hv Hn Hc] Hcond.
  assert (below_cap (self st) = true) as Hcap.
  { unfold loop_cond in Hcond. by apply andb_true_iff in Hcond as [_ ?]. }
  unfold below_cap in Hcap. apply Z.ltb_lt in Hcap.
  assert (forall u rest,
            urls_to_crawl st = u :: rest ->
            Forall (eligible g) rest /\
            Forall (eligible g)
              (fetched st ++
                 [(u, requests_get (length (fetched st)) u)]).*1 /\
            forall k url result,
              (fetched st ++ [(u, requests_get (length (fetched st)) u)])
                !! k = Some (url, result) ->
              result = requests_get k url) as Hnext.
  { intros u rest Hu. rewrite Hu in Hq. apply Forall_cons in Hq as [Hu' Hq].
    split_and!; [done | | by apply log_snoc_genuine].
    rewrite fmap_app. apply Forall_app. split; [done |].
    by apply Forall_singleton. }
  assert (forall u rest result,
            urls_to_crawl st = u :: rest ->
            requests_get (length (fetched st)) u = result ->
            visit_of (u, result) = None ->
            crawl_inv g
              (mkCrawlState (self st) rest (fetched st ++ [(u, result)])))
    as Hsame.
  { intros u rest result Hu <- Hnone.
    destruct (Hnext u rest Hu) as (Hq' & Hr' & Hl').
    split; simpl; try done; rewrite visit_log_snoc, Hnone;
      by rewrite app_nil_r. }
  destruct (loop_body_pass st Hcond)
    as [u rest Hu Hin | u rest resp handled c Hu Hin Hget Hs Hpre Hlinks Hc'
       | u rest Hu Hin Hf | u rest e Hu Hin Hget He]; simpl.
  - rewrite Hu in Hq. apply Forall_cons in Hq as [_ Hq]. by split.
  - destruct (Hnext u rest Hu) as (Hq' & Hr' & Hl').
    rewrite Hget in Hr', Hl'.
    assert (visit_log (fetched st ++ [(u, inr resp)]) =
            visit_log (fetched st) ++ [u]) as Hlog.
    { rewrite visit_log_snoc. unfold visit_of. simpl.
      by apply Z.eqb_eq in Hs as ->. }
    split; simpl; try done.
    + apply Forall_app. split; [done |].
      apply Forall_forall. intros x [_ Hx]%list_elem_of_In%filter_In.
      by eapply is_valid_url_eligible; [| | exact Hx].
    + rewrite Hlog, list_to_set_app_L, Hv. set_solver.
    + rewrite Hlog. apply NoDup_app.
      split_and!; [done | | apply NoDup_singleton].
      intros x Hx ->%list_elem_of_singleton. apply Hin. rewrite Hv.
      set_solver.
    + rewrite size_union, size_singleton by set_solver. lia.
  - apply Hsame; [done | done |].
    unfold visit_of. simpl.
    destruct (requests_get (length (fetched st)) u) as [e | r];
      simpl in *; [done |].
    by apply Z.eqb_neq in Hf as ->.
  - by apply Hsame.
Qed.

Lemma crawl_inv_reaches (g : SitemapGenerator) (st0 : crawl_state)
    (r : completion * crawl_state) :
  crawl_inv g st0 -> reaches st0 r -> crawl_inv g r.2.
Proof.
  intros Hstart Hreach. induction Hreach as [|st _ IH Hcond]; [done |].
  by apply crawl_inv_step.
Qed.

(** *** Facts about a whole run *)

Lemma crawl_urls_state (g : SitemapGenerator) :
  (crawl_urls g).2 = (crawl_loop (start g)).2.
Proof. unfold crawl_urls. by destruct (crawl_loop _) as [[|e] st]. Qed.

Lemma crawl_urls_returns (g : SitemapGenerator) (l : list string) :
  (crawl_urls g).1 = inr l ->
  (crawl_loop (start g)).1 = Normal /\
  l = list_of_set (visited_urls (self (crawl_urls g).2)).
Proof.
  rewrite crawl_urls_state. unfold crawl_urls.
  destruct (crawl_loop _) as [[|e] st]; simpl; [| done].
  by intros [= <-].
Qed.

Lemma crawl_urls_raises (g : SitemapGenerator) (e : exception) :
  (crawl_urls g).1 = inl e -> (crawl_loop (start g)).1 = Raised e.
Proof.
  unfold crawl_urls.
  destruct (crawl_loop _) as [[|e'] st]; simpl; [done |]. by intros [= <-].
Qed.

Lemma crawl_urls_fuel (g : SitemapGenerator) (n : nat) (st : crawl_state) :
  crawl_loop_fuel n (start g) = Some (Normal, st) ->
  crawl_urls g = (inr (list_of_set (visited_urls (self st))), st).
Proof. intros Hrun%crawl_loop_fuel_sound. unfold crawl_urls. by rewrite Hrun. Qed.

Lemma crawl_urls_reaches (g : SitemapGenerator) :
  reaches (start g) (crawl_loop (start g)).
Proof. apply crawl_loop_reaches, reaches_start. Qed.

Lemma crawl_urls_inv (g : SitemapGenerator) :
  visited_urls g = ∅ -> crawl_inv g (crawl_urls g).2.
Proof.
  intros Hfresh. rewrite crawl_urls_state.
  apply (crawl_inv_reaches g (start g)); [by apply crawl_inv_start |].
  apply crawl_urls_reaches.
Qed.

Lemma elem_of_list_of_set (s : gset string) (u : string) :
  u ∈ list_of_set s <-> u ∈ s.
Proof. by rewrite list_of_set_perm, elem_of_elements. Qed.

Lemma length_list_of_set (s : gset string) :
  length (list_of_set s) = size s.
Proof. by rewrite list_of_set_perm. Qed.

Lemma list_of_set_empty : list_of_set ∅ = [].
Proof.
  apply Permutation_nil_r. by rewrite list_of_set_perm, elements_empty.
Qed.

Lemma eligible_same_domain (base : string) (mp : Z)
    (ign : option (list string)) (u : string) :
  eligible (__init__ base mp ign) u ->
  netloc (urlparse u) = netloc (urlparse base).
Proof.
  intros [-> | (Hdom & _)]; [done |].
  by apply bool_decide_eq_true in Hdom.
Qed.

Lemma loop_body_fetched_prefix (st : crawl_state) :
  fetched st `prefix_of` fetched (loop_body st).2.
Proof.
  unfold loop_body. destruct st as [g [|u q] log]; simpl; [done |].
  case_bool_decide; simpl; [done |].
  assert (log `prefix_of`
          fetched (try_body (mkCrawlState g (u :: q) log) u q).2) as Htry.
  { unfold try_body. simpl.
    destruct (requests_get (length log) u) as [e | r]; simpl;
      [by apply prefix_app_r |].
    destruct (status_code r =? 200); simpl; [| by apply prefix_app_r].
    destruct (BeautifulSoup_raises (text r)); simpl; by apply prefix_app_r. }
  destruct (try_body _ u q).1 as [|e]; [done |].
  by destruct (is_RequestException e).
Qed.

Lemma crawl_loop_fetched_prefix (st : crawl_state) :
  fetched st `prefix_of` fetched (crawl_loop st).2.
Proof.
  induction st as [st IH] using loop_induction.
  rewrite crawl_loop_eq.
  destruct (loop_cond st) eqn:Hcond; [| done].
  pose proof (loop_body_fetched_prefix st) as Hbody.
  destruct (loop_body st).1 eqn:Hcompl; simpl; [| done].
  etransitivity; [exact Hbody | by apply IH].
Qed.

Lemma generate_sitemap_final (g : SitemapGenerator) (output_file : string) :
  final (generate_sitemap g output_file) = (crawl_urls g).2.
Proof.
  unfold generate_sitemap. destruct (crawl_urls g) as [[e | urls] st]; [done |].
  by destruct (Xml.sitemap_xml urls).
Qed.

Lemma crawl_loop_idle (st : crawl_state) :
  loop_cond st = false -> crawl_loop st = (Normal, st).
Proof. intros Hcond. by rewrite crawl_loop_eq, Hcond. Qed.

Lemma loop_cond_start (g : SitemapGenerator) :
  visited_urls g = ∅ -> loop_cond (start g) = (0 <? max_pages g).
Proof.
  intros Hfresh. unfold loop_cond, below_cap. simpl.
  by rewrite Hfresh, size_empty.
Qed.

(** *** The claims *)

(** C1, as amended: a URL of the ignore set other than the base URL is
    never requested and is not in the list [crawl_urls] returns, whatever
    the requests return. *)
Theorem ignored_url_never_fetched (base : string) (mp : Z)
    (ign : option (list string)) (u : string) :
  u ∈ ignore_urls (__init__ base mp ign) ->
  u <> base ->
  (u ∉ (fetched (crawl_urls (__init__ base mp ign)).2).*1) /\
  (forall l, (crawl_urls (__init__ base mp ign)).1 = inr l -> u ∉ l).
Proof.
  intros Hign Hbase. set (g := __init__ base mp ign) in *.
  pose proof (crawl_urls_inv g eq_refl) as Hinv.
  assert (~ eligible g u) as Hout.
  { intros [-> | (_ & _ & _ & Hok)]; [done |].
    by apply bool_decide_eq_true in Hok. }
  assert (u ∉ (fetched (crawl_urls g).2).*1) as Hnever.
  { intros Hin. apply Hout.
    by apply (proj1 (Forall_forall _ _) (inv_requested _ _ Hinv)). }
  split; [done |]. intros l [_ ->]%crawl_urls_returns.
  rewrite elem_of_list_of_set, (inv_visited _ _ Hinv), elem_of_list_to_set.
  by intros Hin%visit_log_requested.
Qed.

(** C2, as amended: at every point of a run the visited set holds at most
    [max(max_pages, 0)] URLs, and so does the list [crawl_urls] returns. *)
Theorem visited_within_cap (base : string) (mp : Z)
    (ign : option (list string)) (r : completion * crawl_state) :
  reaches (start (__init__ base mp ign)) r ->
  Z.of_nat (size (visited_urls (self r.2))) <= Z.max 0 mp /\
  (forall l, (crawl_urls (__init__ base mp ign)).1 = inr l ->
             Z.of_nat (length l) <= Z.max 0 mp).
Proof.
  intros Hreach. set (g := __init__ base mp ign) in *. split.
  - apply (inv_cap g). apply (crawl_inv_reaches g (start g)); [| done].
    by apply crawl_inv_start.
  - intros l [_ ->]%crawl_urls_returns. rewrite length_list_of_set.
    apply (inv_cap g). by apply crawl_urls_inv.
Qed.

(** C3: at every point of a run, every URL of the visited set has the
    host of the base URL, which is [domain]; so has every URL of the list
    returned. *)
Theorem visited_urls_on_domain (base : string) (mp : Z)
    (ign : option (list string)) (r : completion * crawl_state) (u : string) :
  reaches (start (__init__ base mp ign)) r ->
  (u ∈ visited_urls (self r.2) ->
   netloc (urlparse u) = domain (self r.2) /\
   domain (self r.2) = netloc (urlparse base)) /\
  (forall l, (crawl_urls (__init__ base mp ign)).1 = inr l -> u ∈ l ->
             netloc (urlparse u) = netloc (urlparse base)).
Proof.
  intros Hreach. set (g := __init__ base mp ign) in *.
  assert (forall st, crawl_inv g st -> u ∈ visited_urls (self st) ->
                     netloc (urlparse u) = netloc (urlparse base)) as Hhost.
  { intros st Hinv.
    rewrite (inv_visited _ _ Hinv), elem_of_list_to_set.
    intros Hin%visit_log_requested.
    apply (eligible_same_domain base mp ign).
    by apply (proj1 (Forall_forall _ _) (inv_requested _ _ Hinv)). }
  split.
  - assert (crawl_inv g r.2) as Hinv.
    { apply (crawl_inv_reaches g (start g)); [by apply crawl_inv_start | done]. }
    intros Hin. rewrite (inv_domain _ _ Hinv). split; [| done].
    by apply (Hhost r.2).
  - intros l [_ ->]%crawl_urls_returns Hin%elem_of_list_of_set.
    apply (Hhost (crawl_urls g).2); [by apply crawl_urls_inv | done].
Qed.

(** C4, as amended: [is_valid_url] holds exactly when the host is [domain],
    the scheme is http or https, the URL string as a whole, in lower case,
    ends with none of the ten suffixes, the URL is neither visited nor
    ignored, and the visited set holds fewer than [max_pages] URLs. *)
Theorem is_valid_url_iff (g : SitemapGenerator) (url : string) :
  is_valid_url g url = true <->
  netloc (urlparse url) = domain g /\
  (scheme (urlparse url) = "http" \/ scheme (urlparse url) = "https") /\
  (forall ext, ext ∈ file_extensions ->
     ~ exists p, Str.lower url = p +:+ ext) /\
  (url ∉ visited_urls g) /\
  (url ∉ ignore_urls g) /\
  Z.of_nat (size (visited_urls g)) < max_pages g.
Proof.
  clear urlparse_raises urljoin urljoin_raises find_all_a_href
    BeautifulSoup_raises requests_get list_of_set list_of_set_perm write_file.
  unfold is_valid_url, same_domain, http_scheme, not_file, not_visited,
    not_ignored, below_cap.
  rewrite !andb_true_iff, !bool_decide_eq_true, negb_true_iff,
    _is_file_url_false, Z.ltb_lt.
  rewrite !elem_of_cons, elem_of_nil. tauto.
Qed.

(** C5: a request that raises a transport error or returns a status other
    than 200 leaves the visited set as it was, enqueues nothing, and the
    loop goes on with the rest of the frontier; a URL whose requests all
    fail is in the visited set of no run, nor in the list returned; no
    exception of the transport leaves [crawl_urls], and when an exception
    does end the run, the request made last is none that failed. *)
Theorem failed_fetch_is_skipped :
  (forall st current_url rest,
      urls_to_crawl st = current_url :: rest ->
      loop_cond st = true ->
      current_url ∉ visited_urls (self st) ->
      failed (requests_get (length (fetched st)) current_url) ->
      let log :=
        fetched st ++
        [(current_url, requests_get (length (fetched st)) current_url)] in
      loop_body st = (Normal, mkCrawlState (self st) rest log) /\
      crawl_loop st = crawl_loop (mkCrawlState (self st) rest log)) /\
  (forall base mp ign u,
      (forall n, failed (requests_get n u)) ->
      (u ∉ visited_urls (self (crawl_urls (__init__ base mp ign)).2)) /\
      (forall l, (crawl_urls (__init__ base mp ign)).1 = inr l -> u ∉ l)) /\
  (forall g e,
      (crawl_urls g).1 = inl e ->
      is_RequestException e = false /\
      exists u result,
        last (fetched (crawl_urls g).2) = Some (u, result) /\
        ~ failed result).
Proof.
  clear write_file. split_and!.
  - intros st current_url rest Hq Hcond Hnew Hfail log.
    assert (loop_body st = (Normal, mkCrawlState (self st) rest log)) as Hbody.
    { unfold loop_body, try_body. rewrite Hq, bool_decide_eq_false_2 by done.
      subst log. destruct (requests_get _ current_url) as [e | r]; simpl in *.
      - by rewrite Hfail.
      - by apply Z.eqb_neq in Hfail as ->. }
    split; [done |]. by rewrite (crawl_loop_eq st), Hcond, Hbody.
  - intros base mp ign u Hfail. set (g := __init__ base mp ign).
    pose proof (crawl_urls_inv g eq_refl) as Hinv.
    assert (u ∉ visited_urls (self (crawl_urls g).2)) as Hout.
    { rewrite (inv_visited _ _ Hinv), elem_of_list_to_set.
      intros (k & r & Hk & Hstatus)%visit_log_succeeded.
      apply (inv_log _ _ Hinv) in Hk. specialize (Hfail k).
      rewrite <- Hk in Hfail. by simpl in Hfail. }
    split; [done |]. intros l [_ ->]%crawl_urls_returns.
    by rewrite elem_of_list_of_set.
  - intros g e Hraise%crawl_urls_raises. rewrite crawl_urls_state.
    apply crawl_loop_raises in Hraise as (He & u & result & Hlast & Hpass).
    split; [done |]. exists u, result. split; [done |].
    destruct Hpass as [-> | (r & -> & Hs & _)]; simpl; [congruence | tauto].
Qed.

(** C6, as amended: the list [crawl_urls] returns holds the URLs fetched
    with success, each once, in the order in which the visited set
    enumerates them. *)
Theorem crawl_urls_lists_visit_log (base : string) (mp : Z)
    (ign : option (list string)) (l : list string) :
  (crawl_urls (__init__ base mp ign)).1 = inr l ->
  l ≡ₚ visit_log (fetched (crawl_urls (__init__ base mp ign)).2) /\ NoDup l.
Proof.
  set (g := __init__ base mp ign). intros [_ ->]%crawl_urls_returns.
  pose proof (crawl_urls_inv g eq_refl) as Hinv.
  rewrite list_of_set_perm, (inv_visited _ _ Hinv). split.
  - by apply elements_list_to_set, (inv_nodup _ _ Hinv).
  - apply NoDup_elements.
Qed.

(** C7, as amended: a configuration is rejected only when [urlparse]
    raises on the base URL: [main] then reports that exception, issues no
    request and writes nothing.  Otherwise, with [max_pages <= 0] the run
    issues no request, hands a sitemap without entries to the output file,
    and reports an error only if that write raises one; with
    [max_pages > 0] the base URL, whatever its shape, is the first URL
    requested. *)
Theorem only_unparsable_base_url_is_rejected (url : string) (mp : Z)
    (output : string) (ign : list string) :
  (forall e, urlparse_raises url = Some e ->
     main url mp output ign = mkMainOutcome (Some e) [] None) /\
  (urlparse_raises url = None ->
   (mp <= 0 ->
    main url mp output ign =
    mkMainOutcome
      match write_file output (Xml.sitemap_text []) with
      | Raised e => Some e
      | Normal => None
      end
      [] (Some (Xml.sitemap_text []))) /\
   (0 < mp ->
    exists rest,
      requests (main url mp output ign) = (url, requests_get 0 url) :: rest)).
Proof.
  set (g := __init__ url mp (Some ign)). split.
  { intros e Hraise. unfold main, __init___raises. by rewrite Hraise. }
  intros Hparse. unfold main, __init___raises. rewrite Hparse. fold g.
  split; intros Hmp.
  - assert (crawl_loop (start g) = (Normal, start g)) as Hrun.
    { apply crawl_loop_idle. rewrite loop_cond_start by done.
      by apply Z.ltb_ge. }
    unfold generate_sitemap, crawl_urls. rewrite Hrun. simpl.
    by rewrite list_of_set_empty.
  - simpl. rewrite generate_sitemap_final, crawl_urls_state.
    assert (loop_cond (start g) = true) as Hcond.
    { rewrite loop_cond_start by done. by apply Z.ltb_lt. }
    assert (exists rest,
              fetched (loop_body (start g)).2 =
              (url, requests_get 0 url) :: rest) as [first Hfirst].
    { destruct (loop_body_pass _ Hcond)
        as [u rest Hq Hin | u rest resp handled c Hq Hin Hget Hs Hpre Hlinks Hc
           | u rest Hq Hin Hf | u rest e Hq Hin Hget He]; simpl in *.
      - injection Hq as <- <-. set_solver.
      - injection Hq as <- <-. rewrite <- Hget. by exists [].
      - injection Hq as <- <-. by exists [].
      - injection Hq as <- <-. rewrite <- Hget. by exists []. }
    rewrite crawl_loop_eq, Hcond.
    destruct (loop_body (start g)).1; simpl.
    + destruct (crawl_loop_fetched_prefix (loop_body (start g)).2) as [k Hk].
      rewrite Hk, Hfirst. by exists (first ++ k).
    + rewrite Hfirst. by exists first.
Qed.

(** C9, as amended: in the state a run ends in, every URL of the list
    returned fails the filter; the visited conjunct fails and the domain
    conjunct holds; for a URL other than the base URL the scheme, suffix
    and ignore conjuncts hold too; the cap conjunct fails exactly when the
    run filled the visited set up to [max_pages]. *)
Theorem returned_urls_are_invalid (base : string) (mp : Z)
    (ign : option (list string)) (l : list string) (u : string) :
  (crawl_urls (__init__ base mp ign)).1 = inr l ->
  u ∈ l ->
  let s := self (crawl_urls (__init__ base mp ign)).2 in
  is_valid_url s u = false /\
  not_visited s u = false /\
  same_domain s u = true /\
  (u <> base ->
   http_scheme u = true /\ not_file u = true /\ not_ignored s u = true) /\
  (below_cap s = false <-> Z.of_nat (size (visited_urls s)) = mp).
Proof.
  clear write_file. set (g := __init__ base mp ign).
  intros [_ ->]%crawl_urls_returns Hin%elem_of_list_of_set s. subst s.
  destruct (crawl_urls_inv g eq_refl) as [_ Hm Hi Hd _ Hr _ Hv _ Hcap].
  set (s := self (crawl_urls g).2) in *.
  assert (not_visited s u = false) as Hvisited.
  { unfold not_visited. apply bool_decide_eq_false. by intros []. }
  assert (eligible g u) as Hadm.
  { apply (proj1 (Forall_forall _ _) Hr), visit_log_requested.
    by rewrite Hv, elem_of_list_to_set in Hin. }
  split_and!; [| done | | |].
  - unfold is_valid_url. rewrite Hvisited.
    by rewrite andb_false_r.
  - unfold same_domain. rewrite Hd.
    apply bool_decide_eq_true. by apply (eligible_same_domain base mp ign).
  - intros Hbase. destruct Hadm as [-> | (_ & Hs & Hf & Hok)]; [done |].
    split_and!; [done | done |].
    unfold not_ignored in *. by rewrite Hi.
  - assert (size (visited_urls s) <> 0%nat) as Hne.
    { intros Hz%size_empty_iff. set_solver. }
    unfold below_cap. rewrite Hm, Z.ltb_ge.
    change (max_pages g) with mp in *. lia.
Qed.

(** C10: with [max_pages <= 0], [crawl_urls] issues no request and returns
    the empty list. *)
Theorem nonpositive_cap_crawls_nothing (base : string) (mp : Z)
    (ign : option (list string)) :
  mp <= 0 ->
  (crawl_urls (__init__ base mp ign)).1 = inr [] /\
  fetched (crawl_urls (__init__ base mp ign)).2 = [].
Proof.
  intros Hmp. set (g := __init__ base mp ign).
  assert (crawl_loop (start g) = (Normal, start g)) as Hrun.
  { apply crawl_loop_idle. rewrite loop_cond_start by done.
    by apply Z.ltb_ge. }
  unfold crawl_urls. rewrite Hrun. simpl. by rewrite list_of_set_empty.
Qed.

(** ** More on the crawl *)

Lemma reaches_invariant (P : crawl_state -> Prop) (st0 : crawl_state)
    (r : completion * crawl_state) :
  P st0 ->
  (forall st, P st -> loop_cond st = true -> P (loop_body st).2) ->
  reaches st0 r -> P r.2.
Proof.
  intros Hstart Hstep Hreach.
  induction Hreach as [|st _ IH Hcond]; [done | by apply Hstep].
Qed.

Lemma succeeded_in_visit_log (log : list (string * fetch_result)) (k : nat)
    (u : string) (response : Response) :
  log !! k = Some (u, inr response) -> status_code response = 200 ->
  u ∈ visit_log log.
Proof.
  intros Hk Hstatus. unfold visit_log. apply list_elem_of_omap.
  exists (u, inr response). split; [by eapply list_elem_of_lookup_2 |].
  unfold visit_of. simpl. by apply Z.eqb_eq in Hstatus as ->.
Qed.

(** What a pass keeps of the object and of the log. *)
Lemma pass_keeps (st : crawl_state) (r : completion * crawl_state) :
  pass st r ->
  base_url (self r.2) = base_url (self st) /\
  max_pages (self r.2) = max_pages (self st) /\
  ignore_urls (self r.2) = ignore_urls (self st) /\
  domain (self r.2) = domain (self st) /\
  visited_urls (self st) ⊆ visited_urls (self r.2) /\
  fetched st `prefix_of` fetched r.2.
Proof.
  clear list_of_set list_of_set_perm write_file.
  intros [u rest Hq Hin | u rest resp handled c Hq Hin Hget Hs Hpre Hlinks Hc
         | u rest Hq Hin Hf | u rest e Hq Hin Hget He]; simpl;
    split_and!; try done; try (by apply prefix_app_r); set_solver.
Qed.

Lemma reaches_keeps (st0 : crawl_state) (r : completion * crawl_state) :
  reaches st0 r ->
  base_url (self r.2) = base_url (self st0) /\
  max_pages (self r.2) = max_pages (self st0) /\
  ignore_urls (self r.2) = ignore_urls (self st0) /\
  domain (self r.2) = domain (self st0) /\
  visited_urls (self st0) ⊆ visited_urls (self r.2) /\
  fetched st0 `prefix_of` fetched r.2.
Proof.
  intros Hreach. apply (reaches_invariant (fun st =>
    base_url (self st) = base_url (self st0) /\
    max_pages (self st) = max_pages (self st0) /\
    ignore_urls (self st) = ignore_urls (self st0) /\
    domain (self st) = domain (self st0) /\
    visited_urls (self st0) ⊆ visited_urls (self st) /\
    fetched st0 `prefix_of` fetched st) st0 r); [done | | done].
  intros st (Hb & Hm & Hi & Hd & Hv & Hl) Hcond.
  destruct (pass_keeps st _ (loop_body_pass st Hcond))
    as (Hb' & Hm' & Hi' & Hd' & Hv' & Hl').
  split_and!; try congruence; by etransitivity.
Qed.

Lemma crawl_urls_fuel_raised (g : SitemapGenerator) (n : nat)
    (e : exception) (st : crawl_state) :
  crawl_loop_fuel n (start g) = Some (Raised e, st) ->
  crawl_urls g = (inl e, st).
Proof.
  clear list_of_set_perm write_file.
  intros Hrun%crawl_loop_fuel_sound. unfold crawl_urls. by rewrite Hrun.
Qed.

Lemma crawl_urls_capped (base : string) (mp : Z) (ign : option (list string)) :
  mp <= 0 ->
  crawl_urls (__init__ base mp ign) = (inr [], start (__init__ base mp ign)).
Proof.
  clear write_file. intros Hmp. set (g := __init__ base mp ign).
  assert (crawl_loop (start g) = (Normal, start g)) as Hrun.
  { apply crawl_loop_idle. rewrite loop_cond_start by done.
    by apply Z.ltb_ge. }
  unfold crawl_urls. rewrite Hrun. simpl. by rewrite list_of_set_empty.
Qed.

Lemma crawl_urls_base_failed (base : string) (mp : Z)
    (ign : option (list string)) :
  0 < mp -> failed (requests_get 0 base) ->
  crawl_urls (__init__ base mp ign) =
  (inr [], mkCrawlState (__init__ base mp ign) []
             [(base, requests_get 0 base)]).
Proof.
  clear write_file. intros Hmp Hfail. set (g := __init__ base mp ign).
  assert (loop_cond (start g) = true) as Hcond.
  { rewrite loop_cond_start by done. by apply Z.ltb_lt. }
  unfold crawl_urls. rewrite crawl_loop_eq, Hcond.
  assert (loop_body (start g) =
          (Normal, mkCrawlState g [] [(base, requests_get 0 base)])) as ->.
  { unfold loop_body, try_body. simpl.
    rewrite bool_decide_eq_false_2 by set_solver.
    destruct (requests_get 0 base) as [e | r]; simpl in *.
    - by rewrite Hfail.
    - by apply Z.eqb_neq in Hfail as ->. }
  simpl. rewrite crawl_loop_idle by done. simpl.
  by rewrite list_of_set_empty.
Qed.

Lemma crawl_urls_base_fetched (base : string) (mp : Z)
    (ign : option (list string)) (l : list string) :
  0 < mp -> ~ failed (requests_get 0 base) ->
  (crawl_urls (__init__ base mp ign)).1 = inr l ->
  base ∈ visited_urls (self (crawl_urls (__init__ base mp ign)).2).
Proof.
  clear list_of_set_perm write_file.
  intros Hmp Hok Hl. set (g := __init__ base mp ign) in *.
  assert (loop_cond (start g) = true) as Hcond.
  { rewrite loop_cond_start by done. by apply Z.ltb_lt. }
  apply crawl_urls_returns in Hl as [Hnormal _].
  rewrite crawl_urls_state.
  rewrite crawl_loop_eq, Hcond in Hnormal |- *.
  destruct (loop_body_pass _ Hcond)
    as [u rest Hq Hin | u rest resp handled c Hq Hin Hget Hs Hpre Hlinks Hc
       | u rest Hq Hin Hf | u rest e Hq Hin Hget He]; simpl in *.
  - injection Hq as <- <-. set_solver.
  - injection Hq as <- <-. destruct c as [|e]; [| done].
    match goal with
    | |- _ ∈ visited_urls (self (crawl_loop ?st1).2) =>
        destruct (reaches_keeps st1 _ (crawl_loop_reaches st1 st1
                                         (reaches_start st1)))
          as (_ & _ & _ & _ & Hsub & _)
    end.
    apply Hsub. simpl. set_solver.
  - injection Hq as <- <-. done.
  - done.
Qed.

Lemma failed_dec (result : fetch_result) : failed result \/ ~ failed result.
Proof.
  destruct result as [e | r]; simpl.
  - destruct (is_RequestException e); [by left | by right].
  - destruct (decide (status_code r = 200)); [right | left]; tauto.
Qed.

(** X1: the link loop leaves the frontier it finds in place and appends,
    in page order and with repetitions, the resolved links that pass the
    filter, up to the first link on which [urljoin] or [is_valid_url]
    raises, which ends the loop; it appends nothing once the visited set
    has reached the cap.  When no link raises, the loop completes and has
    handled every link. *)
Theorem enqueue_links_appends (g : SitemapGenerator) (current_url : string)
    (hrefs queue : list string) :
  enqueue_links g current_url hrefs queue =
  (links_completion current_url hrefs,
   if below_cap g
   then queue ++
        List.filter (is_valid_url g)
          (map (urljoin current_url) (links_handled current_url hrefs))
   else queue) /\
  ((forall href, href ∈ hrefs -> link_raises current_url href = None) ->
   enqueue_links g current_url hrefs queue =
   (Normal,
    if below_cap g
    then queue ++
         List.filter (is_valid_url g) (map (urljoin current_url) hrefs)
    else queue)).
Proof.
  clear find_all_a_href BeautifulSoup_raises requests_get list_of_set
    list_of_set_perm write_file.
  assert (enqueue_links g current_url hrefs queue =
          (links_completion current_url hrefs,
           if below_cap g
           then queue ++
                List.filter (is_valid_url g)
                  (map (urljoin current_url)
                     (links_handled current_url hrefs))
           else queue)) as Heq.
  { rewrite enqueue_links_eq. destruct (below_cap g) eqn:Hcap; [done |].
    assert (forall l, List.filter (is_valid_url g) l = []) as ->.
    { intros l. induction l as [|x l IH]; [done |]. simpl.
      unfold is_valid_url at 1. by rewrite Hcap, andb_false_r. }
    by rewrite app_nil_r. }
  split; [done |]. intros Hnone. rewrite Heq.
  by destruct (links_handled_all current_url hrefs Hnone) as [-> ->].
Qed.

(** X2: whatever state the loop starts in, a run never changes
    [base_url], [max_pages], [ignore_urls] or [domain], never takes a URL
    out of the visited set, and only adds to the log of requests. *)
Theorem crawl_keeps_configuration (st0 : crawl_state)
    (r : completion * crawl_state) :
  reaches st0 r ->
  base_url (self r.2) = base_url (self st0) /\
  max_pages (self r.2) = max_pages (self st0) /\
  ignore_urls (self r.2) = ignore_urls (self st0) /\
  domain (self r.2) = domain (self st0) /\
  visited_urls (self st0) ⊆ visited_urls (self r.2) /\
  fetched st0 `prefix_of` fetched r.2.
Proof. apply reaches_keeps. Qed.

(** X3: a URL the filter rejects at some point of a run is rejected at
    every later point of that run. *)
Theorem rejected_stays_rejected (st0 : crawl_state)
    (r : completion * crawl_state) (url : string) :
  reaches st0 r ->
  is_valid_url (self st0) url = false ->
  is_valid_url (self r.2) url = false.
Proof.
  clear list_of_set list_of_set_perm write_file.
  intros (_ & Hm & Hi & Hd & Hv & _)%reaches_keeps Hrej.
  apply not_true_iff_false. intros Hok. apply not_true_iff_false in Hrej.
  apply Hrej. revert Hok.
  unfold is_valid_url, same_domain, not_visited, not_ignored, below_cap.
  rewrite !andb_true_iff, !bool_decide_eq_true, !Z.ltb_lt, Hm, Hi, Hd.
  intros (((((? & ?) & ?) & Hnew) & ?) & Hcap).
  pose proof (subseteq_size _ _ Hv) as Hsize.
  split_and!; [done | done | done | | done | lia].
  intros Hold. by apply Hnew, Hv.
Qed.

(** X4: [crawl_urls] returns only when there is nothing left to crawl or
    the cap is met: on return the frontier is empty, or the list returned
    holds exactly [max(max_pages, 0)] URLs. *)
Theorem crawl_stops_when_done (base : string) (mp : Z)
    (ign : option (list string)) (l : list string) :
  (crawl_urls (__init__ base mp ign)).1 = inr l ->
  urls_to_crawl (crawl_urls (__init__ base mp ign)).2 = [] \/
  Z.of_nat (length l) = Z.max 0 mp.
Proof.
  clear write_file. set (g := __init__ base mp ign).
  intros [Hnormal ->]%crawl_urls_returns.
  pose proof (crawl_urls_inv g eq_refl) as Hinv.
  pose proof (inv_cap _ _ Hinv) as Hcap. pose proof (inv_max _ _ Hinv) as Hmax.
  apply crawl_loop_stops in Hnormal. rewrite <- crawl_urls_state in Hnormal.
  rewrite length_list_of_set.
  unfold loop_cond, below_cap in Hnormal. rewrite Hmax in Hnormal.
  destruct (urls_to_crawl (crawl_urls g).2); [by left | right].
  simpl in Hnormal. apply Z.ltb_ge in Hnormal.
  change (max_pages g) with mp in *. lia.
Qed.

(** X5: [crawl_urls] called on an object whose visited set already holds
    the base URL issues no request, leaves the object as it is and returns
    the visited set it finds; so a second crawl with an object whose first
    crawl returned a non-empty list returns that list again without any
    request. *)
Theorem crawl_again_is_idle :
  (forall g,
      base_url g ∈ visited_urls g ->
      crawl_urls g =
      (inr (list_of_set (visited_urls g)),
       mkCrawlState g (if below_cap g then [] else [base_url g]) [])) /\
  (forall base mp ign l,
      (crawl_urls (__init__ base mp ign)).1 = inr l ->
      l <> [] ->
      (crawl_urls (self (crawl_urls (__init__ base mp ign)).2)).1 = inr l /\
      fetched (crawl_urls (self (crawl_urls (__init__ base mp ign)).2)).2 = []).
Proof.
  clear write_file.
  assert (forall g,
            base_url g ∈ visited_urls g ->
            crawl_urls g =
            (inr (list_of_set (visited_urls g)),
             mkCrawlState g (if below_cap g then [] else [base_url g]) []))
    as Hidle.
  { intros g Hin. unfold crawl_urls. rewrite crawl_loop_eq.
    unfold loop_cond at 1. simpl. destruct (below_cap g) eqn:Hcap; [| done].
    unfold loop_body. simpl. rewrite bool_decide_eq_true_2 by done. simpl.
    by rewrite crawl_loop_idle. }
  split; [done |]. intros base mp ign l Hl Hne.
  assert (base ∈ visited_urls (self (crawl_urls (__init__ base mp ign)).2))
    as Hin.
  { destruct (Z.le_gt_cases mp 0) as [Hmp | Hmp].
    { rewrite (crawl_urls_capped base mp ign Hmp) in Hl. simpl in Hl.
      congruence. }
    destruct (failed_dec (requests_get 0 base)) as [Hfail | Hok].
    { rewrite (crawl_urls_base_failed base mp ign Hmp Hfail) in Hl.
      simpl in Hl. congruence. }
    by apply (crawl_urls_base_fetched base mp ign l). }
  set (g := __init__ base mp ign) in *.
  assert (base_url (self (crawl_urls g).2) = base) as Hbase.
  { destruct (reaches_keeps (start g) _ (crawl_urls_reaches g))
      as (Hb & _). by rewrite crawl_urls_state, Hb. }
  rewrite <- Hbase in Hin.
  rewrite (Hidle _ Hin). simpl.
  by apply crawl_urls_returns in Hl as [_ ->].
Qed.

(** X6: with [max_pages > 0] the request for the base URL decides the run.
    When it fails, nothing else is requested and the list returned is
    empty; a list returned holds the base URL exactly when that request
    did not fail, and is empty exactly when it did. *)
Theorem base_request_decides (base : string) (mp : Z)
    (ign : option (list string)) :
  0 < mp ->
  (failed (requests_get 0 base) ->
   crawl_urls (__init__ base mp ign) =
   (inr [], mkCrawlState (__init__ base mp ign) []
              [(base, requests_get 0 base)])) /\
  (forall l, (crawl_urls (__init__ base mp ign)).1 = inr l ->
     (base ∈ l <-> ~ failed (requests_get 0 base)) /\
     (l = [] <-> failed (requests_get 0 base))).
Proof.
  clear write_file. intros Hmp.
  split; [by apply crawl_urls_base_failed |]. intros l Hl.
  assert (failed (requests_get 0 base) -> l = []) as Hempty.
  { intros Hfail. rewrite (crawl_urls_base_failed base mp ign Hmp Hfail) in Hl.
    simpl in Hl. congruence. }
  assert (~ failed (requests_get 0 base) -> base ∈ l) as Hbase.
  { intros Hok.
    pose proof (crawl_urls_base_fetched base mp ign l Hmp Hok Hl) as Hin.
    apply crawl_urls_returns in Hl as [_ ->].
    by apply elem_of_list_of_set. }
  split; split.
  - intros Hin Hfail. rewrite (Hempty Hfail) in Hin. by apply elem_of_nil in Hin.
  - done.
  - intros ->. destruct (failed_dec (requests_get 0 base)) as [? | Hok]; [done |].
    apply Hbase in Hok. by apply elem_of_nil in Hok.
  - done.
Qed.

(** X15: when [urlparse] accepts the base URL, the request for it fails
    and [max_pages > 0], [main] makes that one request, hands a sitemap
    without entries to the output file, and reports an error only if the
    write raises one. *)
Theorem main_on_unreachable_site (url : string) (mp : Z) (output : string)
    (ign : list string) :
  urlparse_raises url = None ->
  0 < mp ->
  failed (requests_get 0 url) ->
  main url mp output ign =
  mkMainOutcome
    match write_file output (Xml.sitemap_text []) with
    | Raised e => Some e
    | Normal => None
    end
    [(url, requests_get 0 url)]
    (Some (Xml.sitemap_text [])).
Proof.
  intros Hparse Hmp Hfail. unfold main, __init___raises, generate_sitemap.
  by rewrite Hparse, (crawl_urls_base_failed url mp (Some ign) Hmp Hfail).
Qed.

(** X7: every URL handed to [requests.get] has the host of the base URL;
    other than the base URL itself it has scheme http or https, none of
    the ten file suffixes, and is not in the ignore set. *)
Theorem requests_stay_on_site (base : string) (mp : Z)
    (ign : option (list string)) (u : string) :
  u ∈ (fetched (crawl_urls (__init__ base mp ign)).2).*1 ->
  netloc (urlparse u) = netloc (urlparse base) /\
  (u <> base ->
   scheme (urlparse u) ∈ ["http"; "https"] /\
   _is_file_url u = false /\
   (u ∉ ignore_urls (__init__ base mp ign))).
Proof.
  clear list_of_set_perm write_file. set (g := __init__ base mp ign).
  intros Hin. pose proof (crawl_urls_inv g eq_refl) as Hinv.
  pose proof (proj1 (Forall_forall _ _) (inv_requested _ _ Hinv) u Hin)
    as Hok.
  split; [by apply (eligible_same_domain base mp ign) |].
  intros Hbase. destruct Hok as [-> | (_ & Hs & Hf & Hi)]; [done |].
  unfold http_scheme, not_file, not_ignored in *.
  apply bool_decide_eq_true in Hs, Hi. by apply negb_true_iff in Hf.
Qed.

(** X8: a URL fetched with status 200 is not requested again in the same
    run: every request for it stands at or before the successful one in
    the log. *)
Theorem visited_url_not_requested_again (base : string) (mp : Z)
    (ign : option (list string)) (i j : nat) (u : string)
    (response : Response) (result : fetch_result) :
  fetched (crawl_urls (__init__ base mp ign)).2 !! i = Some (u, inr response) ->
  status_code response = 200 ->
  fetched (crawl_urls (__init__ base mp ign)).2 !! j = Some (u, result) ->
  (j <= i)%nat.
Proof.
  clear list_of_set_perm write_file. set (g := __init__ base mp ign).
  rewrite crawl_urls_state.
  assert (crawl_inv g (crawl_loop (start g)).2 /\
          forall i j u r res,
            fetched (crawl_loop (start g)).2 !! i = Some (u, inr r) ->
            status_code r = 200 ->
            fetched (crawl_loop (start g)).2 !! j = Some (u, res) ->
            (j <= i)%nat) as [_ Honce]; [| by apply Honce].
  apply (reaches_invariant (fun st =>
    crawl_inv g st /\
    forall i j u r res,
      fetched st !! i = Some (u, inr r) -> status_code r = 200 ->
      fetched st !! j = Some (u, res) -> (j <= i)%nat) (start g));
    [| | apply crawl_urls_reaches].
  { split; [by apply crawl_inv_start | done]. }
  clear i j u response result.
  intros st [Hinv Honce] Hcond. split; [by apply crawl_inv_step |].
  assert (forall v res,
            v ∉ visited_urls (self st) ->
            forall i j u r res',
              (fetched st ++ [(v, res)]) !! i = Some (u, inr r) ->
              status_code r = 200 ->
              (fetched st ++ [(v, res)]) !! j = Some (u, res') ->
              (j <= i)%nat) as Hsnoc.
  { intros v res Hnew i j u r res'
      [Hi | [Hi Hi']]%lookup_app_Some Hs [Hj | [Hj Hj']]%lookup_app_Some.
    - by eapply Honce.
    - apply list_lookup_singleton_Some in Hj' as [_ [= <- _]].
      exfalso. apply Hnew. rewrite (inv_visited _ _ Hinv), elem_of_list_to_set.
      by eapply succeeded_in_visit_log.
    - apply lookup_lt_Some in Hj. lia.
    - apply list_lookup_singleton_Some in Hi' as [? _].
      apply list_lookup_singleton_Some in Hj' as [? _]. lia. }
  destruct (loop_body_pass st Hcond)
    as [u rest Hq Hin | u rest resp handled c Hq Hin Hget Hs Hpre Hlinks Hc
       | u rest Hq Hin Hf | u rest e Hq Hin Hget He]; simpl; [done | | |];
    by apply Hsnoc.
Qed.

(** X9: the crawl requests only what it was given or has found: every
    URL requested is the base URL, or a reference, resolved with
    [urljoin], taken from the anchors of a page requested earlier in the
    run and answered with status 200. *)
Theorem requested_urls_were_linked (base : string) (mp : Z)
    (ign : option (list string)) (j : nat) (u : string)
    (result : fetch_result) :
  fetched (crawl_urls (__init__ base mp ign)).2 !! j = Some (u, result) ->
  u = base \/ linked_before (fetched (crawl_urls (__init__ base mp ign)).2) j u.
Proof.
  clear list_of_set_perm write_file. set (g := __init__ base mp ign).
  rewrite crawl_urls_state.
  assert ((forall v, v ∈ urls_to_crawl (crawl_loop (start g)).2 ->
             v = base \/
             linked_before (fetched (crawl_loop (start g)).2)
               (length (fetched (crawl_loop (start g)).2)) v) /\
          (forall k v res,
             fetched (crawl_loop (start g)).2 !! k = Some (v, res) ->
             v = base \/ linked_before (fetched (crawl_loop (start g)).2) k v))
    as [_ Hlog]; [| by eapply Hlog].
  apply (reaches_invariant (fun st =>
    (forall v, v ∈ urls_to_crawl st ->
       v = base \/ linked_before (fetched st) (length (fetched st)) v) /\
    (forall k v res, fetched st !! k = Some (v, res) ->
       v = base \/ linked_before (fetched st) k v)) (start g));
    [| | apply crawl_urls_reaches].
  { split; [| done]. intros v ->%list_elem_of_singleton. by left. }
  clear j u result. intros st [Hfront Hlog] Hcond.
  assert (forall x b b' v,
            (b <= b')%nat ->
            v = base \/ linked_before (fetched st) b v ->
            v = base \/ linked_before (fetched st ++ [x]) b' v) as Hmono.
  { intros x b b' v Hb [-> | (k & p & r & href & Hk & Hp & Hrest)];
      [by left | right].
    exists k, p, r, href. split; [lia |]. split; [| done].
    by apply lookup_app_l_Some. }
  assert (forall v res rest,
            urls_to_crawl st = v :: rest ->
            forall k w res',
              (fetched st ++ [(v, res)]) !! k = Some (w, res') ->
              w = base \/ linked_before (fetched st ++ [(v, res)]) k w)
    as Hsnoc.
  { intros v res rest Hq k w res' [Hk | [Hk Hk']]%lookup_app_Some.
    - apply (Hmono _ k k); [done | by eapply Hlog].
    - apply list_lookup_singleton_Some in Hk' as [Hz [= <- _]].
      apply (Hmono _ (length (fetched st)) k); [lia |].
      apply Hfront. rewrite Hq. by left. }
  assert (forall v rest x,
            urls_to_crawl st = v :: rest ->
            forall w, w ∈ rest ->
              w = base \/
              linked_before (fetched st ++ [x]) (length (fetched st ++ [x])) w)
    as Hrest.
  { intros v rest x Hq w Hw.
    apply (Hmono _ (length (fetched st))); [rewrite length_app; lia |].
    apply Hfront. rewrite Hq. by right. }
  destruct (loop_body_pass st Hcond)
    as [u rest Hq Hin | u rest resp handled c Hq Hin Hget Hs Hpre Hlinks Hc
       | u rest Hq Hin Hf | u rest e Hq Hin Hget He]; simpl.
  - split; [| done]. intros v Hv. apply Hfront. rewrite Hq. by right.
  - split; [| by eapply Hsnoc].
    intros v [Hv | Hv]%elem_of_app; [by eapply Hrest |]. right.
    apply list_elem_of_In, filter_In in Hv as [Hv _].
    apply in_map_iff in Hv as (href & <- & Hhref%list_elem_of_In).
    exists (length (fetched st)), u, resp, href.
    split; [rewrite length_app; simpl; lia |].
    split; [by rewrite lookup_app_r, Nat.sub_diag |].
    split_and!; [done | | done]. by apply (prefix_elem_of handled).
  - split; [by eapply Hrest | by eapply Hsnoc].
  - split; [by eapply Hrest | by eapply Hsnoc].
Qed.

(** X10: no request is issued once the cap is met: when a request is
    made, fewer than [max_pages] of the requests before it have been
    answered with status 200. *)
Theorem requests_only_below_cap (base : string) (mp : Z)
    (ign : option (list string)) (j : nat) :
  (j < length (fetched (crawl_urls (__init__ base mp ign)).2))%nat ->
  Z.of_nat
    (length (visit_log
               (take j (fetched (crawl_urls (__init__ base mp ign)).2))))
  < mp.
Proof.
  clear list_of_set_perm write_file. set (g := __init__ base mp ign).
  rewrite crawl_urls_state.
  assert (crawl_inv g (crawl_loop (start g)).2 /\
          forall k, (k < length (fetched (crawl_loop (start g)).2))%nat ->
            Z.of_nat (length (visit_log
                                (take k (fetched (crawl_loop (start g)).2))))
            < mp) as [_ Hcap]; [| by apply Hcap].
  apply (reaches_invariant (fun st =>
    crawl_inv g st /\
    forall k, (k < length (fetched st))%nat ->
      Z.of_nat (length (visit_log (take k (fetched st)))) < mp) (start g));
    [| | apply crawl_urls_reaches].
  { split; [by apply crawl_inv_start |]. simpl. lia. }
  clear j. intros st [Hinv Hcap] Hcond. split; [by apply crawl_inv_step |].
  assert (Z.of_nat (length (visit_log (fetched st))) < mp) as Hroom.
  { unfold loop_cond, below_cap in Hcond.
    apply andb_true_iff in Hcond as [_ Hlt%Z.ltb_lt].
    rewrite (inv_max _ _ Hinv), (inv_visited _ _ Hinv) in Hlt.
    rewrite size_list_to_set in Hlt by apply (inv_nodup _ _ Hinv). done. }
  assert (forall x k, (k < length (fetched st ++ [x]))%nat ->
            Z.of_nat (length (visit_log (take k (fetched st ++ [x])))) < mp)
    as Hsnoc.
  { intros x k Hk. rewrite length_app in Hk. simpl in Hk.
    destruct (decide (k < length (fetched st))%nat) as [Hlt | Hge].
    - rewrite take_app_le by lia. by apply Hcap.
    - assert (k = length (fetched st)) as -> by lia.
      by rewrite take_app_length. }
  destruct (loop_body_pass st Hcond)
    as [u rest Hq Hin | u rest resp handled c Hq Hin Hget Hs Hpre Hlinks Hc
       | u rest Hq Hin Hf | u rest e Hq Hin Hget He]; simpl; [done | | |];
    by apply Hsnoc.
Qed.

Lemma crawl_urls_permutes (g : SitemapGenerator) (l : list string) :
  visited_urls g = ∅ -> (crawl_urls g).1 = inr l ->
  l ≡ₚ visit_log (fetched (crawl_urls g).2).
Proof.
  clear write_file. intros Hfresh [_ ->]%crawl_urls_returns.
  pose proof (crawl_urls_inv g Hfresh) as Hinv.
  rewrite list_of_set_perm, (inv_visited _ _ Hinv).
  by apply elements_list_to_set, (inv_nodup _ _ Hinv).
Qed.

(** X11: when [urlparse] accepts the base URL and an exception ends the
    crawl, [main] reports it and hands nothing to the output file,
    whatever was fetched before.  The exception is no
    [RequestException]; it was raised by the request made last or, that
    request answered with status 200, while its page was handled: by the
    parser, or by [urljoin] or [is_valid_url] on one of its links. *)
Theorem main_reports_crawl_exception (url : string) (mp : Z)
    (output : string) (ign : list string) (e : exception) :
  urlparse_raises url = None ->
  (crawl_urls (__init__ url mp (Some ign))).1 = inl e ->
  main url mp output ign =
  mkMainOutcome (Some e)
    (fetched (crawl_urls (__init__ url mp (Some ign))).2) None /\
  is_RequestException e = false /\
  exists u result,
    last (fetched (crawl_urls (__init__ url mp (Some ign))).2)
    = Some (u, result) /\
    raised_in_pass u result e.
Proof.
  clear list_of_set_perm. set (g := __init__ url mp (Some ign)).
  intros Hparse Hraise. split.
  - unfold main, __init___raises, generate_sitemap. rewrite Hparse. fold g.
    destruct (crawl_urls g) as [[e' | l] st]; simpl in *; congruence.
  - apply crawl_urls_raises in Hraise. rewrite crawl_urls_state.
    by apply crawl_loop_raises.
Qed.

(** X16: on an object whose base URL [urlparse] accepts, every URL handed
    to [requests.get] is one that [urlparse] accepts, and so is every URL
    of the list returned: [is_valid_url] raises on none of them. *)
Theorem requested_urls_are_parsable (base : string) (mp : Z)
    (ign : option (list string)) (u : string) :
  urlparse_raises base = None ->
  (u ∈ (fetched (crawl_urls (__init__ base mp ign)).2).*1 ->
   urlparse_raises u = None) /\
  (forall l, (crawl_urls (__init__ base mp ign)).1 = inr l -> u ∈ l ->
             is_valid_url_raises u = None).
Proof.
  clear write_file. intros Hbase. set (g := __init__ base mp ign).
  assert (Forall (fun v => urlparse_raises v = None)
            (fetched (crawl_urls g).2).*1) as Hlog.
  { rewrite crawl_urls_state.
    assert (Forall (fun v => urlparse_raises v = None)
              (urls_to_crawl (crawl_loop (start g)).2) /\
            Forall (fun v => urlparse_raises v = None)
              (fetched (crawl_loop (start g)).2).*1) as [_ Hlog]; [| done].
    apply (reaches_invariant (fun st =>
      Forall (fun v => urlparse_raises v = None) (urls_to_crawl st) /\
      Forall (fun v => urlparse_raises v = None) (fetched st).*1) (start g));
      [| | apply crawl_urls_reaches].
    { split; [by apply Forall_singleton | done]. }
    intros st [Hfront Hreq] Hcond.
    assert (forall v rest x,
              urls_to_crawl st = v :: rest ->
              Forall (fun v => urlparse_raises v = None) rest /\
              Forall (fun v => urlparse_raises v = None)
                (fetched st ++ [(v, x)]).*1) as Hnext.
    { intros v rest x Hq. rewrite Hq in Hfront.
      apply Forall_cons in Hfront as [Hv Hrest]. split; [done |].
      rewrite fmap_app. apply Forall_app. split; [done |].
      by apply Forall_singleton. }
    destruct (loop_body_pass st Hcond)
      as [v rest Hq Hin | v rest resp handled c Hq Hin Hget Hs Hpre Hlinks Hc
         | v rest Hq Hin Hf | v rest e Hq Hin Hget He]; simpl.
    - split; [| done]. rewrite Hq in Hfront.
      by apply Forall_cons in Hfront as [_ ?].
    - destruct (Hnext v rest (inr resp) Hq) as [Hrest Hreq'].
      split; [| done]. apply Forall_app. split; [done |].
      apply Forall_forall. intros x [Hx _]%list_elem_of_In%filter_In.
      apply in_map_iff in Hx as (href & <- & Hhref%list_elem_of_In).
      pose proof (proj1 (Forall_forall _ _) Hlinks href Hhref) as Hnone.
      unfold link_raises in Hnone.
      by destruct (urljoin_raises v href).
    - by apply (Hnext v rest).
    - by apply (Hnext v rest). }
  split.
  - intros Hin. by apply (proj1 (Forall_forall _ _) Hlog).
  - intros l [_ ->]%crawl_urls_returns Hin%elem_of_list_of_set.
    pose proof (crawl_urls_inv g eq_refl) as Hinv.
    rewrite (inv_visited _ _ Hinv), elem_of_list_to_set in Hin.
    apply visit_log_requested in Hin.
    by apply (proj1 (Forall_forall _ _) Hlog).
Qed.

(** X17: a link on which [urljoin] or [urlparse] raises something other
    than a [RequestException] ends the crawl at the page that carries
    it: the exception of the first such link leaves the loop, the page
    stays in the visited set, and no further request is made. *)
Theorem raising_link_ends_the_crawl (st : crawl_state) (u : string)
    (rest : list string) (response : Response) (e : exception) :
  urls_to_crawl st = u :: rest ->
  loop_cond st = true ->
  u ∉ visited_urls (self st) ->
  requests_get (length (fetched st)) u = inr response ->
  status_code response = 200 ->
  BeautifulSoup_raises (text response) = None ->
  links_completion u (find_all_a_href (text response)) = Raised e ->
  is_RequestException e = false ->
  (crawl_loop st).1 = Raised e /\
  visited_urls (self (crawl_loop st).2) = {[u]} ∪ visited_urls (self st) /\
  fetched (crawl_loop st).2 = fetched st ++ [(u, inr response)].
Proof.
  clear list_of_set list_of_set_perm write_file.
  intros Hq Hcond Hnew Hget Hstatus Hsoup Hlinks He.
  assert (exists queue,
            loop_body st =
            (Raised e,
             mkCrawlState
               (set_visited_urls (self st) ({[u]} ∪ visited_urls (self st)))
               queue (fetched st ++ [(u, inr response)]))) as [queue Hbody].
  { unfold loop_body, try_body.
    rewrite Hq, bool_decide_eq_false_2, Hget by done. simpl.
    apply Z.eqb_eq in Hstatus as ->. rewrite Hsoup, enqueue_links_eq. simpl.
    rewrite Hlinks, He. by eexists. }
  rewrite crawl_loop_eq, Hcond, Hbody. by simpl.
Qed.

End Crawler.

(** ** The sitemap document *)

Section SitemapDocument.

Import Xml.

#[local] Arguments String.append : simpl nomatch.

Lemma append_nil_r (s : string) : s +:+ "" = s.
Proof. induction s as [|c s IH]; simpl; [done | by rewrite IH]. Qed.

Lemma append_assoc (s t u : string) : (s +:+ t) +:+ u = s +:+ (t +:+ u).
Proof. induction s as [|c s IH]; simpl; [done | by rewrite IH]. Qed.

Lemma concat_cons (x : string) (l : list string) :
  String.concat "" (x :: l) = x +:+ String.concat "" l.
Proof. destruct l; simpl; [by rewrite append_nil_r | done]. Qed.

Lemma list_ascii_of_append (s t : string) :
  list_ascii_of_string (s +:+ t) =
  list_ascii_of_string s ++ list_ascii_of_string t.
Proof. induction s as [|c s IH]; simpl; [done | by rewrite IH]. Qed.

Lemma free_of_append (c : ascii) (s t : string) :
  free_of c (s +:+ t) = (free_of c s && free_of c t)%bool.
Proof. unfold free_of. by rewrite list_ascii_of_append, forallb_app. Qed.

(** *** The tree *)

Lemma fold_append_child (t : string) (a : list (string * string))
    (x : option string) (cs : list Element) (urls : list string) :
  fold_left (fun root url => append_child root (url_element url)) urls
    (Elem t a x cs)
  = Elem t a x (cs ++ map url_element urls).
Proof.
  revert cs. induction urls as [|u urls IH]; intros cs; simpl.
  - by rewrite app_nil_r.
  - by rewrite IH, <- app_assoc.
Qed.

Lemma sitemap_tree_eq (urls : list string) :
  sitemap_tree urls =
  Elem "urlset" [("xmlns", sitemap_ns)] None (map url_element urls).
Proof. apply (fold_append_child "urlset" _ None []). Qed.

(** *** Plain text passes the parser unchanged *)

Lemma free_of_cons (c c' : ascii) (s : string) :
  free_of c (String c' s) = (negb (Ascii.eqb c' c) && free_of c s)%bool.
Proof. done. Qed.

Lemma plain_text_xml_chars (s : string) : plain_text s -> xml_chars s = true.
Proof. unfold plain_text. by intros [? _]%andb_true_iff. Qed.

Lemma normalize_eol_free (s : string) :
  free_of CR s = true -> normalize_eol s = s.
Proof.
  induction s as [|c s IH]; [done |].
  rewrite free_of_cons. intros [Hc%negb_true_iff Hs]%andb_true_iff.
  simpl. by rewrite Hc, IH.
Qed.

Lemma normalize_eol_plain (s : string) : plain_text s -> normalize_eol s = s.
Proof.
  unfold plain_text. intros [_ Hfree]%andb_true_iff.
  by apply normalize_eol_free.
Qed.

Lemma well_formed_urlset (children : list Element) :
  well_formed (Elem "urlset" [("xmlns", sitemap_ns)] None children) =
  forallb well_formed children.
Proof.
  change (well_formed (Elem "urlset" [("xmlns", sitemap_ns)] None children))
    with (xml_chars sitemap_ns && true && true &&
          forallb well_formed children)%bool.
  assert (xml_chars sitemap_ns = true) as -> by (vm_compute; reflexivity).
  done.
Qed.

Lemma well_formed_sitemap_tree (urls : list string) :
  Forall plain_text urls -> well_formed (sitemap_tree urls) = true.
Proof.
  intros Hplain. rewrite sitemap_tree_eq, well_formed_urlset.
  induction Hplain as [|u urls Hu _ IH]; [done |]. simpl.
  by rewrite (plain_text_xml_chars u Hu), IH.
Qed.

(** The [url] element as minidom holds it. *)
Lemma as_parsed_url_element (url : string) :
  plain_text url ->
  as_parsed (url_element url) =
  Elem "url" [] None
    [Elem "loc" [] match url with
                   | EmptyString => None
                   | _ => Some url
                   end []].
Proof.
  intros Hplain. simpl. destruct url as [|c url]; [done |].
  by rewrite (normalize_eol_plain _ Hplain).
Qed.

Lemma writexml_url_element (url : string) :
  plain_text url ->
  writexml "  " "  " (as_parsed (url_element url)) = entry_text url.
Proof.
  intros Hplain. rewrite (as_parsed_url_element url Hplain).
  unfold entry_text. destruct url as [|c url]; [reflexivity |].
  simpl. by rewrite !append_assoc.
Qed.

Lemma writexml_url_elements (urls : list string) :
  Forall plain_text urls ->
  String.concat "" (map (writexml "  " "  ") (map as_parsed (map url_element urls)))
  = String.concat "" (map entry_text urls).
Proof.
  induction 1 as [|u urls Hu _ IH]; [done |].
  rewrite !map_cons, !concat_cons. by rewrite (writexml_url_element u Hu), IH.
Qed.

Lemma sitemap_xml_text (urls : list string) :
  Forall plain_text urls -> sitemap_xml urls = inr (sitemap_text urls).
Proof.
  intros Hplain. unfold sitemap_xml, parseString_tostring.
  rewrite (well_formed_sitemap_tree urls Hplain). f_equal.
  rewrite sitemap_tree_eq. unfold toprettyxml, sitemap_text.
  destruct urls as [|u urls]; [done |].
  cbn [as_parsed]. rewrite <- (writexml_url_elements _ Hplain).
  reflexivity.
Qed.

(** *** Reading the text back *)

Lemma unescape_escape (s : string) : unescape (escape s) = s.
Proof.
  unfold unescape. induction s as [|c s IH]; [done |].
  simpl. unfold escape_char.
  destruct (Ascii.eqb c "&") eqn:Hamp.
  { apply Ascii.eqb_eq in Hamp as ->. simpl. by rewrite IH. }
  destruct (Ascii.eqb c "<") eqn:Hlt.
  { apply Ascii.eqb_eq in Hlt as ->. simpl. by rewrite IH. }
  destruct (Ascii.eqb c DQUOTE) eqn:Hquot.
  { apply Ascii.eqb_eq in Hquot as ->. simpl. by rewrite IH. }
  destruct (Ascii.eqb c ">") eqn:Hgt.
  { apply Ascii.eqb_eq in Hgt as ->. simpl. by rewrite IH. }
  simpl. by rewrite Hamp, IH.
Qed.

Lemma escape_free_of_lt (s : string) : free_of "<" (escape s) = true.
Proof.
  induction s as [|c s IH]; [done |].
  simpl. rewrite free_of_append, IH, andb_true_r. unfold escape_char.
  destruct (Ascii.eqb c "&"); [done |].
  destruct (Ascii.eqb c "<") eqn:Hlt; [done |].
  destruct (Ascii.eqb c DQUOTE); [done |].
  destruct (Ascii.eqb c ">"); [done |].
  by rewrite free_of_cons, Hlt.
Qed.

Lemma escape_nonempty (c : ascii) (s : string) : escape (String c s) <> "".
Proof.
  simpl. unfold escape_char.
  by destruct (Ascii.eqb c "&"), (Ascii.eqb c "<"), (Ascii.eqb c DQUOTE),
    (Ascii.eqb c ">").
Qed.

(** Character data up to the next markup becomes one token. *)
Lemma lex_text (s rest acc : string) :
  free_of "<" s = true ->
  lex false acc (s +:+ String "<" rest) =
  text_token (acc +:+ s) ++ lex true "" rest.
Proof.
  revert acc. induction s as [|c s IH]; intros acc Hfree.
  - simpl. by rewrite append_nil_r.
  - rewrite free_of_cons in Hfree.
    apply andb_true_iff in Hfree as [Hc%negb_true_iff Hs].
    simpl. rewrite Hc, (IH _ Hs). unfold snoc.
    by rewrite append_assoc.
Qed.

Lemma locs_lex_entry (url rest : string) :
  locs (lex false newl (entry_text url +:+ rest)) =
  url :: locs (lex false newl rest).
Proof.
  unfold entry_text. destruct url as [|c url]; [reflexivity |].
  pose proof (escape_free_of_lt (String c url)) as Hfree.
  pose proof (escape_nonempty c url) as Hne.
  rewrite <- (unescape_escape (String c url)) at 2.
  generalize dependent (escape (String c url)). intros e Hfree Hne.
  rewrite !append_assoc. simpl.
  rewrite (lex_text e _ "" Hfree). simpl.
  destruct e as [|c' e]; [done |]. reflexivity.
Qed.

Lemma locs_lex_entries (urls : list string) (rest : string) :
  locs (lex false newl (String.concat "" (map entry_text urls) +:+ rest)) =
  urls ++ locs (lex false newl rest).
Proof.
  induction urls as [|u urls IH]; [done |].
  rewrite map_cons, concat_cons, append_assoc, locs_lex_entry.
  by rewrite IH.
Qed.

Lemma read_sitemap_text (urls : list string) :
  read_sitemap (sitemap_text urls) = urls.
Proof.
  unfold read_sitemap, sitemap_text.
  destruct urls as [|u urls]; [reflexivity |].
  generalize (u :: urls). clear. intros urls.
  simpl. rewrite (locs_lex_entries urls).
  by rewrite app_nil_r.
Qed.

End SitemapDocument.

(** C8, as amended: for URLs made of the characters of XML 1.0 other
    than the carriage return, the tree built has the root [urlset] with the
    sitemap namespace and one [url] element holding one [loc] with the URL
    per input URL, in order; the document written is [sitemap_text], where
    each URL stands with its [&], [<], [>] and double quotes escaped; and
    reading the document back gives the same URLs in the same order. *)
Theorem sitemap_round_trip (urls : list string) :
  Forall Xml.plain_text urls ->
  Xml.sitemap_tree urls =
    Xml.Elem "urlset" [("xmlns", "http://www.sitemaps.org/schemas/sitemap/0.9")]
      None (map (fun url => Xml.Elem "url" [] None
                              [Xml.Elem "loc" [] (Some url) []]) urls) /\
  Xml.sitemap_xml urls = inr (Xml.sitemap_text urls) /\
  Xml.read_sitemap (Xml.sitemap_text urls) = urls.
Proof.
  intros Hplain. split_and!.
  - apply sitemap_tree_eq.
  - by apply sitemap_xml_text.
  - apply read_sitemap_text.
Qed.

(** ** More on the document and on the suffix test *)

Section DocumentCases.

Import Xml.

#[local] Arguments String.append : simpl nomatch.

Lemma lower_append (s t : string) :
  Str.lower (s +:+ t) = Str.lower s +:+ Str.lower t.
Proof. induction s as [|c s IH]; simpl; [done | by rewrite IH]. Qed.

Lemma normalize_eol_nonempty (c : ascii) (s : string) :
  normalize_eol (String c s) <> "".
Proof.
  simpl. destruct (Ascii.eqb c CR); [| done].
  destruct s as [|c' s]; [done |].
  destruct (Ascii.eqb c' LF) eqn:Hlf; [| done].
  by apply Ascii.eqb_eq in Hlf as ->.
Qed.

Lemma writexml_parsed_url_element (url : string) :
  writexml "  " "  " (as_parsed (url_element url)) =
  entry_text (normalize_eol url).
Proof.
  destruct url as [|c url]; [reflexivity |].
  pose proof (normalize_eol_nonempty c url) as Hne.
  unfold url_element. cbn [as_parsed map].
  generalize dependent (normalize_eol (String c url)). intros t Hne.
  destruct t as [|c' t]; [done |].
  unfold entry_text. simpl. by rewrite !append_assoc.
Qed.

Lemma writexml_parsed_url_elements (urls : list string) :
  String.concat ""
    (map (writexml "  " "  ") (map as_parsed (map url_element urls)))
  = String.concat "" (map entry_text (map normalize_eol urls)).
Proof.
  induction urls as [|u urls IH]; [done |].
  rewrite !map_cons, !concat_cons. by rewrite writexml_parsed_url_element, IH.
Qed.

Lemma well_formed_sitemap_tree_eq (urls : list string) :
  well_formed (sitemap_tree urls) = forallb xml_chars urls.
Proof.
  rewrite sitemap_tree_eq, well_formed_urlset.
  induction urls as [|u urls IH]; [done |]. simpl.
  by rewrite IH, !andb_true_r.
Qed.

Lemma sitemap_xml_eq (urls : list string) :
  sitemap_xml urls =
  if forallb xml_chars urls
  then inr (sitemap_text (map normalize_eol urls))
  else inl ExpatError.
Proof.
  unfold sitemap_xml, parseString_tostring.
  rewrite well_formed_sitemap_tree_eq.
  destruct (forallb xml_chars urls); [| done]. f_equal.
  rewrite sitemap_tree_eq. unfold toprettyxml, sitemap_text.
  destruct urls as [|u urls]; [done |].
  cbn [as_parsed]. rewrite <- writexml_parsed_url_elements.
  reflexivity.
Qed.

(** A text that the parser gives back as it is holds no carriage
    return. *)
Lemma normalize_eol_fixed (s : string) :
  normalize_eol s = s -> free_of CR s = true.
Proof.
  induction s as [|c s IH]; [done |]. simpl.
  destruct (Ascii.eqb c CR) eqn:Hc.
  - apply Ascii.eqb_eq in Hc as ->.
    destruct s as [|c' s]; [discriminate |].
    destruct (Ascii.eqb c' LF) eqn:Hlf; [| discriminate].
    apply Ascii.eqb_eq in Hlf as ->. simpl. discriminate.
  - intros [= Hs]. rewrite free_of_cons, Hc. by apply IH.
Qed.

End DocumentCases.

(** X12: what is read back from the document written is the URLs with
    their line ends (CR, CR LF) turned into line feeds; so a list of URLs
    has a document that reads back as the list itself exactly when every
    URL is made of the characters of XML 1.0 other than the carriage
    return. *)
Theorem sitemap_round_trip_iff (urls : list string) :
  (forall document,
     Xml.sitemap_xml urls = inr document ->
     document = Xml.sitemap_text (map Xml.normalize_eol urls) /\
     Xml.read_sitemap document = map Xml.normalize_eol urls) /\
  ((exists document,
      Xml.sitemap_xml urls = inr document /\
      Xml.read_sitemap document = urls) <->
   Forall Xml.plain_text urls).
Proof.
  assert (forall document,
            Xml.sitemap_xml urls = inr document ->
            forallb Xml.xml_chars urls = true /\
            document = Xml.sitemap_text (map Xml.normalize_eol urls) /\
            Xml.read_sitemap document = map Xml.normalize_eol urls) as Hdoc.
  { intros document. rewrite sitemap_xml_eq.
    destruct (forallb Xml.xml_chars urls); [| done].
    intros [= <-]. by rewrite read_sitemap_text. }
  split; [intros document Hwritten; by apply Hdoc in Hwritten as (_ & ? & ?) |].
  split.
  - intros (document & (Hchars & _ & Hread)%Hdoc & Hback).
    rewrite Hback in Hread. clear Hdoc Hback.
    induction urls as [|u urls IH]; [done |].
    simpl in Hchars. apply andb_true_iff in Hchars as [Hu Hchars].
    injection Hread as Hfixed Hread. constructor; [| by apply IH].
    unfold Xml.plain_text. rewrite Hu. simpl.
    by apply normalize_eol_fixed.
  - intros Hplain. exists (Xml.sitemap_text urls).
    split; [by apply sitemap_xml_text | apply read_sitemap_text].
Qed.

(** X13: the suffix test looks at the end of the URL only, whatever the
    case of its letters: a URL classified as a file ends, in lower case,
    with one of the ten suffixes, and every URL that ends with it, in any
    case, is classified as a file as well. *)
Theorem file_url_decided_by_suffix (prefix url url' : string) :
  _is_file_url url = true ->
  Str.lower url' = Str.lower url ->
  (exists ext tail,
     ext ∈ file_extensions /\ Str.lower url = tail +:+ ext) /\
  _is_file_url (prefix +:+ url') = true.
Proof.
  unfold _is_file_url. rewrite !existsb_exists.
  intros (ext & Hext & [tail Htail]%endswith_spec) Hsame. split.
  - exists ext, tail. split; [by apply list_elem_of_In | done].
  - exists ext. split; [done |]. apply endswith_spec.
    exists (Str.lower prefix +:+ tail).
    by rewrite lower_append, Hsame, Htail, append_assoc.
Qed.

Section EndToEnd.

Variable urlparse : string -> ParseResult.
Variable urlparse_raises : string -> option exception.
Variable urljoin : string -> string -> string.
Variable urljoin_raises : string -> string -> option exception.
Variable find_all_a_href : string -> list string.
Variable BeautifulSoup_raises : string -> option exception.
Variable requests_get : nat -> string -> fetch_result.
Variable list_of_set : gset string -> list string.
Hypothesis list_of_set_perm : forall s, list_of_set s ≡ₚ elements s.
Variable write_file : string -> string -> completion.

Local Abbreviation crawl_urls' :=
  (crawl_urls urlparse urlparse_raises urljoin urljoin_raises
     find_all_a_href BeautifulSoup_raises requests_get list_of_set).

(** X14: when [urlparse] accepts the base URL and the crawl returns URLs
    made of the characters of XML 1.0 other than the carriage return,
    [main] hands to the output file the sitemap of exactly these URLs and
    reports an error only if the write raises one; read back, the document
    lists the URLs fetched with status 200, each once. *)
Theorem main_writes_the_visited_pages (url : string) (mp : Z)
    (output : string) (ign : list string) (l : list string) :
  urlparse_raises url = None ->
  (crawl_urls' (__init__ urlparse url mp (Some ign))).1 = inr l ->
  Forall Xml.plain_text l ->
  main urlparse urlparse_raises urljoin urljoin_raises find_all_a_href
    BeautifulSoup_raises requests_get list_of_set write_file
    url mp output ign =
  mkMainOutcome
    match write_file output (Xml.sitemap_text l) with
    | Raised e => Some e
    | Normal => None
    end
    (fetched (crawl_urls' (__init__ urlparse url mp (Some ign))).2)
    (Some (Xml.sitemap_text l)) /\
  Xml.read_sitemap (Xml.sitemap_text l) ≡ₚ
  visit_log (fetched (crawl_urls' (__init__ urlparse url mp (Some ign))).2).
Proof.
  intros Hparse Hrun Hplain. split.
  - unfold main, __init___raises, generate_sitemap. rewrite Hparse.
    destruct (crawl_urls _ _ _ _ _ _ _ _ _) as [[e | l'] st]; simpl in *;
      [done |].
    injection Hrun as ->. by rewrite (sitemap_xml_text l Hplain).
  - rewrite read_sitemap_text.
    by apply (crawl_urls_permutes urlparse urlparse_raises urljoin
                urljoin_raises find_all_a_href BeautifulSoup_raises
                requests_get list_of_set list_of_set_perm).
Qed.

End EndToEnd.

(** ** Closed runs

    The crawler on the concrete network of [Scenario], with the visited
    set enumerated by [elements]. *)

Local Abbreviation on_network T site :=
  (T Scenario.urlparse Scenario.urlparse_raises Scenario.urljoin
     Scenario.urljoin_raises Scenario.find_all_a_href
     Scenario.BeautifulSoup_raises (Scenario.serve site)).

Local Abbreviation crawl site := (on_network crawl_urls site elements).

Local Abbreviation new_generator := (__init__ Scenario.urlparse).

(** [main] on the network, with an output file that takes every write. *)
Local Abbreviation run_main site :=
  (on_network main site elements (fun _ _ => Normal)).

Lemma elements_enumerates (s : gset string) : elements s ≡ₚ elements s.
Proof. reflexivity. Defined.

(** Replaces a closed call of [crawl_urls] by its value, computed with
    [n] passes of the loop. *)
Ltac crawl_by_fuel n :=
  match goal with
  | |- context [crawl_urls ?up ?upr ?uj ?ujr ?fa ?bs ?rg ?ls ?g] =>
      let r :=
        eval vm_compute in
          (crawl_loop_fuel up upr uj ujr fa bs rg n (start g)) in
      match r with
      | Some (Normal, ?st) =>
          rewrite (crawl_urls_fuel up upr uj ujr fa bs rg ls g n st
                     ltac:(vm_compute; reflexivity))
      end
  end.

(** As [crawl_by_fuel], for a run that ends with an exception. *)
Ltac crawl_raises_by_fuel n :=
  match goal with
  | |- context [crawl_urls ?up ?upr ?uj ?ujr ?fa ?bs ?rg ?ls ?g] =>
      let r :=
        eval vm_compute in
          (crawl_loop_fuel up upr uj ujr fa bs rg n (start g)) in
      match r with
      | Some (Raised ?e, ?st) =>
          rewrite (crawl_urls_fuel_raised up upr uj ujr fa bs rg ls g n e st
                     ltac:(vm_compute; reflexivity))
      end
  end.

(** The scenario of the specification: links to [/a], [/b], another host
    and a PDF, with room for ten pages. *)
Example crawl_filters_links :
  (crawl [("http://h/", Scenario.page
             ["/a"; "/b"; "http://other.example/x"; "/report.pdf"]);
          ("http://h/a", Scenario.page []);
          ("http://h/b", Scenario.page ["/a"])]
     (new_generator "http://h/" 10 None)).1
  = inr ["http://h/a"; "http://h/b"; "http://h/"].
Proof. crawl_by_fuel 10%nat. vm_compute. reflexivity. Qed.

(** C1, counterexample: the base URL is in the ignore set, and yet it is
    requested and returned. *)
Lemma ignored_base_url_is_fetched :
  "http://h/" ∈ ignore_urls (new_generator "http://h/" 5 (Some ["http://h/"])) /\
  (fetched (crawl [("http://h/", Scenario.page [])]
              (new_generator "http://h/" 5 (Some ["http://h/"]))).2).*1
  = ["http://h/"] /\
  (crawl [("http://h/", Scenario.page [])]
     (new_generator "http://h/" 5 (Some ["http://h/"]))).1
  = inr ["http://h/"].
Proof.
  split; [by apply (elem_of_list_to_set (C:=gset string)); left |].
  crawl_by_fuel 5%nat. split; vm_compute; reflexivity.
Qed.

(** C2, counterexample: with [max_pages = -1] the list returned is empty,
    and its length, 0, is above [max_pages]. *)
Lemma negative_cap_is_exceeded :
  (crawl [] (new_generator "http://h/" (-1) None)).1 = inr [] /\
  ~ Z.of_nat (length (@nil string)) <= -1.
Proof.
  split; [| simpl; lia]. crawl_by_fuel 5%nat. vm_compute. reflexivity.
Qed.

(** C4, counterexample: the path of [http://h/p?f=a.pdf] is [/p], so the
    predicate of the specification holds of it, and [is_valid_url] rejects
    it; the path of [http://h/a.pdf?x=1] ends with [.pdf], and
    [is_valid_url] accepts it. *)
Lemma suffix_test_reads_whole_url :
  (spec_isValid Scenario.urlparse (new_generator "http://h/" 5 None)
     "http://h/p?f=a.pdf" /\
   is_valid_url Scenario.urlparse (new_generator "http://h/" 5 None)
     "http://h/p?f=a.pdf" = false) /\
  (~ spec_isValid Scenario.urlparse (new_generator "http://h/" 5 None)
       "http://h/a.pdf?x=1" /\
   is_valid_url Scenario.urlparse (new_generator "http://h/" 5 None)
     "http://h/a.pdf?x=1" = true).
Proof.
  split; split; try (vm_compute; reflexivity).
  - split_and!; try done; [by left |].
    intros ext Hext.
    repeat (apply elem_of_cons in Hext as [-> | Hext];
            [vm_compute; reflexivity |]).
    by apply elem_of_nil in Hext.
  - intros (_ & _ & Hsuffix & _).
    specialize (Hsuffix ".pdf" ltac:(unfold file_extensions; set_solver)).
    vm_compute in Hsuffix. discriminate.
Qed.

(** C6, counterexample: the base page links to [/a]; the two pages are
    fetched in the order [http://h/], [http://h/a] and returned in the
    other order. *)
Lemma returned_order_is_not_fetch_order :
  visit_log
    (fetched (crawl [("http://h/", Scenario.page ["/a"]);
                     ("http://h/a", Scenario.page [])]
                (new_generator "http://h/" 5 None)).2)
  = ["http://h/"; "http://h/a"] /\
  (crawl [("http://h/", Scenario.page ["/a"]);
          ("http://h/a", Scenario.page [])]
     (new_generator "http://h/" 5 None)).1
  = inr ["http://h/a"; "http://h/"].
Proof. crawl_by_fuel 5%nat. split; vm_compute; reflexivity. Qed.

(** C7, counterexample: with [max_pages = 0], and with a base URL that is
    no URL, [main] reports no error and writes a sitemap; the malformed
    base URL is handed to [requests.get]. *)
Lemma bad_configuration_is_accepted :
  run_main [] "http://h/" 0 "sitemap.xml" []
  = mkMainOutcome None [] (Some (Xml.sitemap_text [])) /\
  run_main [] "not a url" 5 "sitemap.xml" []
  = mkMainOutcome None [("not a url", inl RequestException)]
      (Some (Xml.sitemap_text [])).
Proof.
  unfold main, __init___raises, generate_sitemap.
  split; simpl; crawl_by_fuel 5%nat; vm_compute; reflexivity.
Qed.

(** C9, counterexample: with [max_pages = 1] the base URL is returned, and
    in the final state the cap conjunct of the filter fails as well. *)
Lemma cap_conjunct_fails_too :
  (crawl [("http://h/", Scenario.page [])]
     (new_generator "http://h/" 1 None)).1 = inr ["http://h/"] /\
  below_cap
    (self (crawl [("http://h/", Scenario.page [])]
             (new_generator "http://h/" 1 None)).2) = false.
Proof. crawl_by_fuel 5%nat. split; vm_compute; reflexivity. Qed.

(** C8, counterexample: a URL with the control character of code 1 has no
    sitemap at all, the parser refusing the document; a URL with a carriage
    return is read back with a line feed in its place. *)
Lemma sitemap_loses_control_characters :
  Xml.sitemap_xml ["http://h/" +:+ String "001"%char ""] = inl ExpatError /\
  exists document,
    Xml.sitemap_xml ["http://h/" +:+ String Xml.CR "x"] = inr document /\
    Xml.read_sitemap document = ["http://h/" +:+ String Xml.LF "x"].
Proof.
  split; [vm_compute; reflexivity |].
  eexists. split; vm_compute; reflexivity.
Qed.

(** With [max_pages = 1] the base page alone is fetched, valid links or
    not. *)
Example crawl_stops_at_cap :
  (crawl [("http://h/", Scenario.page ["/a"; "/b"]);
          ("http://h/a", Scenario.page []);
          ("http://h/b", Scenario.page [])]
     (new_generator "http://h/" 1 None)).1 = inr ["http://h/"] /\
  (fetched (crawl [("http://h/", Scenario.page ["/a"; "/b"]);
                   ("http://h/a", Scenario.page []);
                   ("http://h/b", Scenario.page [])]
              (new_generator "http://h/" 1 None)).2).*1 = ["http://h/"].
Proof. crawl_by_fuel 5%nat. split; vm_compute; reflexivity. Qed.

(** A page that answers 404 is asked for and left out, and so are the
    links it carries. *)
Example crawl_skips_missing_page :
  (crawl [("http://h/", Scenario.page ["/a"; "/b"]);
          ("http://h/a", inr (mkResponse 404 ("<a href=" +:+ Xml.quoted "/c" +:+ ">")));
          ("http://h/b", Scenario.page [])]
     (new_generator "http://h/" 10 None)).1
  = inr ["http://h/b"; "http://h/"] /\
  (fetched (crawl [("http://h/", Scenario.page ["/a"; "/b"]);
                   ("http://h/a", inr (mkResponse 404 ("<a href=" +:+ Xml.quoted "/c" +:+ ">")));
                   ("http://h/b", Scenario.page [])]
              (new_generator "http://h/" 10 None)).2).*1
  = ["http://h/"; "http://h/a"; "http://h/b"].
Proof. crawl_by_fuel 10%nat. split; vm_compute; reflexivity. Qed.

(** A link that [urljoin] cannot split ends the crawl with the
    [ValueError] it raises: the page that carries it is visited, the
    links before it are in the frontier, nothing after it is looked at,
    and [main] writes no sitemap. *)
Example crawl_aborts_on_unparsable_link :
  crawl [("http://h/", Scenario.page ["/a"; "http://[bad/"; "/b"]);
         ("http://h/a", Scenario.page []);
         ("http://h/b", Scenario.page [])]
    (new_generator "http://h/" 10 None)
  = (inl Scenario.ValueError,
     mkCrawlState
       (set_visited_urls (new_generator "http://h/" 10 None) {["http://h/"]})
       ["http://h/a"]
       [("http://h/", Scenario.page ["/a"; "http://[bad/"; "/b"])]) /\
  run_main [("http://h/", Scenario.page ["/a"; "http://[bad/"; "/b"]);
            ("http://h/a", Scenario.page []);
            ("http://h/b", Scenario.page [])]
    "http://h/" 10 "sitemap.xml" []
  = mkMainOutcome (Some Scenario.ValueError)
      [("http://h/", Scenario.page ["/a"; "http://[bad/"; "/b"])] None.
Proof.
  split.
  - crawl_raises_by_fuel 10%nat. vm_compute. reflexivity.
  - unfold main, __init___raises, generate_sitemap. simpl.
    crawl_raises_by_fuel 10%nat. vm_compute. reflexivity.
Qed.

(** U+FFFF (bytes EF BF BF), U+FFFE and a lone surrogate (bytes ED A0 80)
    are no characters of XML: the parser refuses the document.  U+FFFD and
    U+00E9 are, and go through. *)
Example sitemap_refuses_noncharacters :
  Xml.sitemap_xml
    ["http://h/" +:+ String "239" (String "191" (String "191" ""))]
  = inl ExpatError /\
  Xml.sitemap_xml
    ["http://h/" +:+ String "239" (String "191" (String "190" ""))]
  = inl ExpatError /\
  Xml.sitemap_xml
    ["http://h/" +:+ String "237" (String "160" (String "128" ""))]
  = inl ExpatError /\
  Xml.plain_text
    ("http://h/" +:+ String "239" (String "191" (String "189" ""))) /\
  Xml.plain_text ("http://h/" +:+ String "195" (String "169" "")).
Proof. split_and!; vm_compute; reflexivity. Qed.
(** *** The theorems at work on closed runs *)

Local Abbreviation two_pages :=
  [("http://h/", Scenario.page ["/a"]); ("http://h/a", Scenario.page [])].

(** A site whose page [/a] is missing. *)
Local Abbreviation missing_page :=
  [("http://h/", Scenario.page ["/a"; "/b"]);
   ("http://h/a", @inr exception Response (mkResponse 404 ""));
   ("http://h/b", Scenario.page [])].

Local Abbreviation first_pass site g := (on_network loop_body site (start g)).

(** C1, witness: [/b] is ignored, linked from the base page, and left alone. *)
Lemma ignored_url_never_fetched_witness :
  "http://h/b" ∈ ignore_urls (new_generator "http://h/" 5 (Some ["http://h/b"])) /\
  "http://h/b" <> "http://h/" /\
  ("http://h/b" ∉
     (fetched (crawl [("http://h/", Scenario.page ["/a"; "/b"]);
                      ("http://h/a", Scenario.page []);
                      ("http://h/b", Scenario.page [])]
                 (new_generator "http://h/" 5 (Some ["http://h/b"]))).2).*1) /\
  (forall l,
     (crawl [("http://h/", Scenario.page ["/a"; "/b"]);
             ("http://h/a", Scenario.page []);
             ("http://h/b", Scenario.page [])]
        (new_generator "http://h/" 5 (Some ["http://h/b"]))).1 = inr l ->
     "http://h/b" ∉ l).
Proof.
  assert ("http://h/b" ∈
          ignore_urls (new_generator "http://h/" 5 (Some ["http://h/b"])))
    as Hign by (apply (elem_of_list_to_set (C:=gset string)); left).
  assert ("http://h/b" <> "http://h/") as Hbase by discriminate.
  split; [exact Hign |]. split; [exact Hbase |].
  exact (on_network ignored_url_never_fetched _ elements elements_enumerates
           "http://h/" 5 (Some ["http://h/b"]) "http://h/b" Hign Hbase).
Defined.

(** C2, witness: the state after the first pass, under a cap of one page. *)
Lemma visited_within_cap_witness :
  on_network reaches [("http://h/", Scenario.page ["/a"])]
    (start (new_generator "http://h/" 1 None))
    (first_pass [("http://h/", Scenario.page ["/a"])]
       (new_generator "http://h/" 1 None)) /\
  Z.of_nat
    (size (visited_urls (self
       (first_pass [("http://h/", Scenario.page ["/a"])]
          (new_generator "http://h/" 1 None)).2)))
  <= Z.max 0 1.
Proof.
  assert (on_network reaches [("http://h/", Scenario.page ["/a"])]
            (start (new_generator "http://h/" 1 None))
            (first_pass [("http://h/", Scenario.page ["/a"])]
               (new_generator "http://h/" 1 None))) as Hreach.
  { apply reaches_step; [apply reaches_start | vm_compute; reflexivity]. }
  split; [exact Hreach |].
  exact (proj1 (on_network visited_within_cap _ elements elements_enumerates
                  "http://h/" 1 None _ Hreach)).
Defined.

(** C3, witness: the base URL, visited after the first pass. *)
Lemma visited_urls_on_domain_witness :
  on_network reaches [("http://h/", Scenario.page ["/a"])]
    (start (new_generator "http://h/" 1 None))
    (first_pass [("http://h/", Scenario.page ["/a"])]
       (new_generator "http://h/" 1 None)) /\
  "http://h/" ∈
    visited_urls (self
      (first_pass [("http://h/", Scenario.page ["/a"])]
         (new_generator "http://h/" 1 None)).2) /\
  netloc (Scenario.urlparse "http://h/") = "h".
Proof.
  assert (on_network reaches [("http://h/", Scenario.page ["/a"])]
            (start (new_generator "http://h/" 1 None))
            (first_pass [("http://h/", Scenario.page ["/a"])]
               (new_generator "http://h/" 1 None))) as Hreach.
  { apply reaches_step; [apply reaches_start | vm_compute; reflexivity]. }
  assert ("http://h/" ∈
            visited_urls (self
              (first_pass [("http://h/", Scenario.page ["/a"])]
                 (new_generator "http://h/" 1 None)).2)) as Hin.
  { apply elem_of_union_l, elem_of_singleton. reflexivity. }
  split; [exact Hreach |]. split; [exact Hin |].
  exact (proj1 (proj1 (on_network visited_urls_on_domain _ elements
                         elements_enumerates "http://h/" 1 None _ "http://h/"
                         Hreach) Hin)).
Defined.

(** C5, witness: the second pass of a crawl whose base page links to
    [/a], which answers 404, and to [/b]: the pass leaves the visited set
    alone and the loop goes on with [/b]. *)
Lemma failed_fetch_is_skipped_witness :
  urls_to_crawl (first_pass missing_page (new_generator "http://h/" 5 None)).2
  = ["http://h/a"; "http://h/b"] /\
  loop_cond (first_pass missing_page (new_generator "http://h/" 5 None)).2
  = true /\
  ("http://h/a" ∉
     visited_urls
       (self (first_pass missing_page (new_generator "http://h/" 5 None)).2)) /\
  failed (Scenario.serve missing_page 1 "http://h/a") /\
  on_network loop_body missing_page
    (first_pass missing_page (new_generator "http://h/" 5 None)).2
  = (Normal,
     mkCrawlState
       (set_visited_urls (new_generator "http://h/" 5 None)
          ({["http://h/"]} ∪ ∅))
       ["http://h/b"]
       [("http://h/", Scenario.page ["/a"; "/b"]);
        ("http://h/a", inr (mkResponse 404 ""))]) /\
  (crawl missing_page (new_generator "http://h/" 5 None)).1
  = inr ["http://h/b"; "http://h/"].
Proof.
  assert (urls_to_crawl
            (first_pass missing_page (new_generator "http://h/" 5 None)).2
          = ["http://h/a"; "http://h/b"]) as Hq by (vm_compute; reflexivity).
  assert (loop_cond
            (first_pass missing_page (new_generator "http://h/" 5 None)).2
          = true) as Hcond by (vm_compute; reflexivity).
  assert ("http://h/a" ∉
            visited_urls
              (self (first_pass missing_page
                       (new_generator "http://h/" 5 None)).2)) as Hnew.
  { intros [Hin%elem_of_singleton | Hin%elem_of_empty]%elem_of_union;
      [discriminate | done]. }
  assert (failed (Scenario.serve missing_page 1 "http://h/a")) as Hfail
    by (simpl; discriminate).
  split; [exact Hq |]. split; [exact Hcond |]. split; [exact Hnew |].
  split; [exact Hfail |]. split.
  - exact (proj1 (proj1 (on_network failed_fetch_is_skipped missing_page
                           elements elements_enumerates)
                    (first_pass missing_page
                       (new_generator "http://h/" 5 None)).2
                    "http://h/a" ["http://h/b"] Hq Hcond Hnew Hfail)).
  - crawl_by_fuel 5%nat. vm_compute. reflexivity.
Defined.

(** C6, witness: two pages, returned in the order of the set. *)
Lemma crawl_urls_lists_visit_log_witness :
  (crawl [("http://h/", Scenario.page ["/a"]);
          ("http://h/a", Scenario.page [])]
     (new_generator "http://h/" 5 None)).1
  = inr ["http://h/a"; "http://h/"] /\
  ["http://h/a"; "http://h/"] ≡ₚ
  visit_log
    (fetched (crawl [("http://h/", Scenario.page ["/a"]);
                     ("http://h/a", Scenario.page [])]
                (new_generator "http://h/" 5 None)).2).
Proof.
  assert ((crawl [("http://h/", Scenario.page ["/a"]);
                  ("http://h/a", Scenario.page [])]
             (new_generator "http://h/" 5 None)).1
          = inr ["http://h/a"; "http://h/"]) as Hrun.
  { crawl_by_fuel 5%nat. vm_compute. reflexivity. }
  split; [exact Hrun |].
  exact (proj1 (on_network crawl_urls_lists_visit_log _ elements
                  elements_enumerates "http://h/" 5 None _ Hrun)).
Defined.

(** C7, witness: a base URL with an open bracket in its host is rejected
    without a request; an [ftp] base URL with a cap of zero pages is
    not. *)
Lemma only_unparsable_base_url_is_rejected_witness :
  Scenario.urlparse_raises "http://[bad/" = Some Scenario.ValueError /\
  run_main [] "http://[bad/" 5 "sitemap.xml" []
  = mkMainOutcome (Some Scenario.ValueError) [] None /\
  Scenario.urlparse_raises "ftp://h/" = None /\
  0 <= 0 /\
  run_main [] "ftp://h/" 0 "sitemap.xml" []
  = mkMainOutcome None [] (Some (Xml.sitemap_text [])).
Proof.
  assert (Scenario.urlparse_raises "http://[bad/" = Some Scenario.ValueError)
    as Hbad by reflexivity.
  assert (Scenario.urlparse_raises "ftp://h/" = None) as Hftp by reflexivity.
  assert (0 <= 0) as Hmp by reflexivity.
  split; [exact Hbad |]. split.
  - exact (proj1 (on_network only_unparsable_base_url_is_rejected []
                    elements elements_enumerates (fun _ _ => Normal)
                    "http://[bad/" 5 "sitemap.xml" []) _ Hbad).
  - split; [exact Hftp |]. split; [exact Hmp |].
    exact (proj1 (proj2 (on_network only_unparsable_base_url_is_rejected []
                           elements elements_enumerates (fun _ _ => Normal)
                           "ftp://h/" 0 "sitemap.xml" []) Hftp) Hmp).
Defined.

(** C9, witness: the page [/a] of a two-page crawl. *)
Lemma returned_urls_are_invalid_witness :
  (crawl [("http://h/", Scenario.page ["/a"]);
          ("http://h/a", Scenario.page [])]
     (new_generator "http://h/" 5 None)).1
  = inr ["http://h/a"; "http://h/"] /\
  "http://h/a" ∈ ["http://h/a"; "http://h/"] /\
  is_valid_url Scenario.urlparse
    (self (crawl [("http://h/", Scenario.page ["/a"]);
                  ("http://h/a", Scenario.page [])]
             (new_generator "http://h/" 5 None)).2)
    "http://h/a" = false.
Proof.
  assert ((crawl [("http://h/", Scenario.page ["/a"]);
                  ("http://h/a", Scenario.page [])]
             (new_generator "http://h/" 5 None)).1
          = inr ["http://h/a"; "http://h/"]) as Hrun.
  { crawl_by_fuel 5%nat. vm_compute. reflexivity. }
  assert ("http://h/a" ∈ ["http://h/a"; "http://h/"]) as Hin by left.
  split; [exact Hrun |]. split; [exact Hin |].
  exact (proj1 (on_network returned_urls_are_invalid _ elements
                  elements_enumerates "http://h/" 5 None _ "http://h/a"
                  Hrun Hin)).
Defined.

(** C10, witness: a cap of zero pages. *)
Lemma nonpositive_cap_crawls_nothing_witness :
  0 <= 0 /\
  (crawl [("http://h/", Scenario.page [])]
     (new_generator "http://h/" 0 None)).1 = inr [] /\
  fetched (crawl [("http://h/", Scenario.page [])]
             (new_generator "http://h/" 0 None)).2 = [].
Proof.
  split; [reflexivity |].
  apply (on_network nonpositive_cap_crawls_nothing _ elements
           elements_enumerates "http://h/" 0 None).
  reflexivity.
Defined.

(** C8, witness: two URLs with characters to escape, one of them with a
    character outside ASCII (U+00E9). *)
Lemma sitemap_round_trip_witness :
  Forall Xml.plain_text
    ["http://h/?a=1&b=2"; "http://h/<x>" +:+ String "195" (String "169" "")] /\
  Xml.read_sitemap
    (Xml.sitemap_text
       ["http://h/?a=1&b=2";
        "http://h/<x>" +:+ String "195" (String "169" "")])
  = ["http://h/?a=1&b=2"; "http://h/<x>" +:+ String "195" (String "169" "")].
Proof.
  assert (Forall Xml.plain_text
            ["http://h/?a=1&b=2";
             "http://h/<x>" +:+ String "195" (String "169" "")])
    as Hplain by (repeat constructor).
  split; [exact Hplain |].
  exact (proj2 (proj2 (sitemap_round_trip _ Hplain))).
Defined.

(** *** The further properties at work on closed runs *)

(** X1, witness: two links that resolve, appended behind a frontier of
    one URL. *)
Lemma enqueue_links_appends_witness :
  (forall href, href ∈ ["/a"; "/b"] ->
     link_raises Scenario.urlparse_raises Scenario.urljoin
       Scenario.urljoin_raises "http://h/" href = None) /\
  enqueue_links Scenario.urlparse Scenario.urlparse_raises Scenario.urljoin
    Scenario.urljoin_raises (new_generator "http://h/" 5 None) "http://h/"
    ["/a"; "/b"] ["http://h/x"]
  = (Normal, ["http://h/x"; "http://h/a"; "http://h/b"]).
Proof.
  assert (forall href, href ∈ ["/a"; "/b"] ->
            link_raises Scenario.urlparse_raises Scenario.urljoin
              Scenario.urljoin_raises "http://h/" href = None) as Hnone.
  { intros href Hin. repeat (apply elem_of_cons in Hin as [-> | Hin];
                             [reflexivity |]).
    by apply elem_of_nil in Hin. }
  split; [exact Hnone |].
  rewrite (proj2 (enqueue_links_appends Scenario.urlparse
                    Scenario.urlparse_raises Scenario.urljoin
                    Scenario.urljoin_raises (new_generator "http://h/" 5 None)
                    "http://h/" ["/a"; "/b"] ["http://h/x"]) Hnone).
  vm_compute. reflexivity.
Defined.

(** X2, witness: the state after the first pass over a one-page site. *)
Lemma crawl_keeps_configuration_witness :
  on_network reaches two_pages (start (new_generator "http://h/" 5 None))
    (first_pass two_pages (new_generator "http://h/" 5 None)) /\
  max_pages (self (first_pass two_pages (new_generator "http://h/" 5 None)).2)
  = 5.
Proof.
  assert (on_network reaches two_pages
            (start (new_generator "http://h/" 5 None))
            (first_pass two_pages (new_generator "http://h/" 5 None)))
    as Hreach.
  { apply reaches_step; [apply reaches_start | vm_compute; reflexivity]. }
  split; [exact Hreach |].
  exact (proj1 (proj2 (on_network crawl_keeps_configuration two_pages _ _
                         Hreach))).
Defined.

(** X3, witness: an [ftp] link, rejected before and after the first
    pass. *)
Lemma rejected_stays_rejected_witness :
  on_network reaches two_pages (start (new_generator "http://h/" 5 None))
    (first_pass two_pages (new_generator "http://h/" 5 None)) /\
  is_valid_url Scenario.urlparse
    (self (start (new_generator "http://h/" 5 None))) "ftp://h/x" = false /\
  is_valid_url Scenario.urlparse
    (self (first_pass two_pages (new_generator "http://h/" 5 None)).2)
    "ftp://h/x" = false.
Proof.
  assert (on_network reaches two_pages
            (start (new_generator "http://h/" 5 None))
            (first_pass two_pages (new_generator "http://h/" 5 None)))
    as Hreach.
  { apply reaches_step; [apply reaches_start | vm_compute; reflexivity]. }
  assert (is_valid_url Scenario.urlparse
            (self (start (new_generator "http://h/" 5 None))) "ftp://h/x"
          = false) as Hrej by (vm_compute; reflexivity).
  split; [exact Hreach |]. split; [exact Hrej |].
  exact (on_network rejected_stays_rejected two_pages _ _ "ftp://h/x" Hreach
           Hrej).
Defined.

(** X4, witness: a two-page site crawled to the end under a cap of five. *)
Lemma crawl_stops_when_done_witness :
  (crawl two_pages (new_generator "http://h/" 5 None)).1
  = inr ["http://h/a"; "http://h/"] /\
  (urls_to_crawl (crawl two_pages (new_generator "http://h/" 5 None)).2 = [] \/
   Z.of_nat (length ["http://h/a"; "http://h/"]) = Z.max 0 5).
Proof.
  assert ((crawl two_pages (new_generator "http://h/" 5 None)).1
          = inr ["http://h/a"; "http://h/"]) as Hrun.
  { crawl_by_fuel 5%nat. vm_compute. reflexivity. }
  split; [exact Hrun |].
  exact (on_network crawl_stops_when_done _ elements elements_enumerates
           "http://h/" 5 None _ Hrun).
Defined.

(** X5, witness: an object that has visited its base URL, and the second
    crawl of a two-page site. *)
Lemma crawl_again_is_idle_witness :
  (base_url (set_visited_urls (new_generator "http://h/" 5 None)
               {["http://h/"]})
   ∈ visited_urls (set_visited_urls (new_generator "http://h/" 5 None)
                     {["http://h/"]}) /\
   fetched
     (crawl two_pages
        (set_visited_urls (new_generator "http://h/" 5 None)
           {["http://h/"]})).2
   = []) /\
  ((crawl two_pages (new_generator "http://h/" 5 None)).1
   = inr ["http://h/a"; "http://h/"] /\
   ["http://h/a"; "http://h/"] <> @nil string /\
   (crawl two_pages
      (self (crawl two_pages (new_generator "http://h/" 5 None)).2)).1
   = inr ["http://h/a"; "http://h/"]).
Proof.
  assert (base_url (set_visited_urls (new_generator "http://h/" 5 None)
                      {["http://h/"]})
          ∈ visited_urls (set_visited_urls (new_generator "http://h/" 5 None)
                            {["http://h/"]})) as Hin.
  { simpl. apply elem_of_singleton_2. reflexivity. }
  assert ((crawl two_pages (new_generator "http://h/" 5 None)).1
          = inr ["http://h/a"; "http://h/"]) as Hrun.
  { crawl_by_fuel 5%nat. vm_compute. reflexivity. }
  assert (["http://h/a"; "http://h/"] <> @nil string) as Hne by discriminate.
  split.
  - split; [exact Hin |].
    rewrite (proj1 (on_network crawl_again_is_idle two_pages elements
                      elements_enumerates) _ Hin).
    reflexivity.
  - split; [exact Hrun |]. split; [exact Hne |].
    exact (proj1 (proj2 (on_network crawl_again_is_idle two_pages elements
                           elements_enumerates)
                    "http://h/" 5 None _ Hrun Hne)).
Defined.

(** X6, witness: a base URL nobody answers for. *)
Lemma base_request_decides_witness :
  0 < 5 /\
  failed (Scenario.serve [] 0 "http://h/") /\
  crawl [] (new_generator "http://h/" 5 None) =
  (inr [], mkCrawlState (new_generator "http://h/" 5 None) []
             [("http://h/", Scenario.serve [] 0 "http://h/")]).
Proof.
  assert (0 < 5) as Hmp by reflexivity.
  assert (failed (Scenario.serve [] 0 "http://h/")) as Hfail by reflexivity.
  split; [exact Hmp |]. split; [exact Hfail |].
  exact (proj1 (on_network base_request_decides [] elements
                  elements_enumerates "http://h/" 5 None Hmp) Hfail).
Defined.

(** X7, witness: the page [/a], requested on the host of the base URL. *)
Lemma requests_stay_on_site_witness :
  "http://h/a" ∈
    (fetched (crawl two_pages (new_generator "http://h/" 5 None)).2).*1 /\
  netloc (Scenario.urlparse "http://h/a")
  = netloc (Scenario.urlparse "http://h/").
Proof.
  assert ("http://h/a" ∈
            (fetched (crawl two_pages (new_generator "http://h/" 5 None)).2).*1)
    as Hin.
  { crawl_by_fuel 5%nat. apply list_elem_of_In. vm_compute. tauto. }
  split; [exact Hin |].
  exact (proj1 (on_network requests_stay_on_site _ elements "http://h/" 5
                  None "http://h/a" Hin)).
Defined.

(** X8, witness: the page [/a] is linked from itself and fetched once. *)
Lemma visited_url_not_requested_again_witness :
  fetched
    (crawl [("http://h/", Scenario.page ["/a"]);
            ("http://h/a", Scenario.page ["/a"; "/"])]
       (new_generator "http://h/" 5 None)).2 !! 1%nat
  = Some ("http://h/a", Scenario.page ["/a"; "/"]) /\
  (1 <= 1)%nat.
Proof.
  assert (fetched
            (crawl [("http://h/", Scenario.page ["/a"]);
                    ("http://h/a", Scenario.page ["/a"; "/"])]
               (new_generator "http://h/" 5 None)).2 !! 1%nat
          = Some ("http://h/a", Scenario.page ["/a"; "/"])) as Hlog.
  { crawl_by_fuel 5%nat. vm_compute. reflexivity. }
  split; [exact Hlog |].
  exact (on_network visited_url_not_requested_again _ elements "http://h/" 5
           None 1%nat 1%nat "http://h/a" _ _ Hlog eq_refl Hlog).
Defined.

(** X9, witness: the page [/a], requested second, linked from the base
    page. *)
Lemma requested_urls_were_linked_witness :
  fetched (crawl two_pages (new_generator "http://h/" 5 None)).2 !! 1%nat
  = Some ("http://h/a", Scenario.page []) /\
  ("http://h/a" = "http://h/" \/
   linked_before Scenario.urljoin Scenario.find_all_a_href
     (fetched (crawl two_pages (new_generator "http://h/" 5 None)).2) 1
     "http://h/a").
Proof.
  assert (fetched (crawl two_pages (new_generator "http://h/" 5 None)).2
            !! 1%nat
          = Some ("http://h/a", Scenario.page [])) as Hlog.
  { crawl_by_fuel 5%nat. vm_compute. reflexivity. }
  split; [exact Hlog |].
  exact (on_network requested_urls_were_linked _ elements "http://h/" 5 None
           1%nat "http://h/a" _ Hlog).
Defined.

(** X10, witness: the second request of a two-page crawl, made with one
    page fetched. *)
Lemma requests_only_below_cap_witness :
  (1 < length (fetched (crawl two_pages
                          (new_generator "http://h/" 5 None)).2))%nat /\
  Z.of_nat
    (length (visit_log
               (take 1 (fetched (crawl two_pages
                                   (new_generator "http://h/" 5 None)).2))))
  < 5.
Proof.
  assert (1 < length (fetched (crawl two_pages
                                 (new_generator "http://h/" 5 None)).2))%nat
    as Hj.
  { crawl_by_fuel 5%nat. vm_compute. reflexivity. }
  split; [exact Hj |].
  exact (on_network requests_only_below_cap _ elements "http://h/" 5 None
           1%nat Hj).
Defined.

(** X11, witness: the base page carries a link that [urljoin] cannot
    split. *)
Lemma main_reports_crawl_exception_witness :
  Scenario.urlparse_raises "http://h/" = None /\
  (crawl [("http://h/", Scenario.page ["/a"; "http://[bad/"])]
     (new_generator "http://h/" 5 (Some []))).1
  = inl Scenario.ValueError /\
  run_main [("http://h/", Scenario.page ["/a"; "http://[bad/"])]
    "http://h/" 5 "sitemap.xml" []
  = mkMainOutcome (Some Scenario.ValueError)
      [("http://h/", Scenario.page ["/a"; "http://[bad/"])] None.
Proof.
  assert (Scenario.urlparse_raises "http://h/" = None) as Hparse
    by reflexivity.
  assert ((crawl [("http://h/", Scenario.page ["/a"; "http://[bad/"])]
             (new_generator "http://h/" 5 (Some []))).1
          = inl Scenario.ValueError) as Hraise.
  { crawl_raises_by_fuel 5%nat. reflexivity. }
  split; [exact Hparse |]. split; [exact Hraise |].
  rewrite (proj1 (on_network main_reports_crawl_exception _ elements
                    (fun _ _ => Normal) "http://h/" 5 "sitemap.xml" [] _
                    Hparse Hraise)).
  crawl_raises_by_fuel 5%nat. reflexivity.
Defined.

(** X12, witness: a URL with a carriage return has a document, read back
    with a line feed in its place. *)
Lemma sitemap_round_trip_iff_witness :
  Xml.sitemap_xml ["http://h/" +:+ String Xml.CR "x"]
  = inr (Xml.sitemap_text ["http://h/" +:+ String Xml.LF "x"]) /\
  Xml.read_sitemap (Xml.sitemap_text ["http://h/" +:+ String Xml.LF "x"])
  = ["http://h/" +:+ String Xml.LF "x"].
Proof.
  assert (Xml.sitemap_xml ["http://h/" +:+ String Xml.CR "x"]
          = inr (Xml.sitemap_text ["http://h/" +:+ String Xml.LF "x"]))
    as Hwritten by (vm_compute; reflexivity).
  split; [exact Hwritten |].
  exact (proj2 (proj1 (sitemap_round_trip_iff
                         ["http://h/" +:+ String Xml.CR "x"]) _ Hwritten)).
Defined.

(** X13, witness: an upper-case suffix after a host and a path. *)
Lemma file_url_decided_by_suffix_witness :
  _is_file_url "report.pdf" = true /\
  Str.lower "Report.PDF" = Str.lower "report.pdf" /\
  _is_file_url ("http://h/files/" +:+ "Report.PDF") = true.
Proof.
  assert (_is_file_url "report.pdf" = true) as Hfile by reflexivity.
  assert (Str.lower "Report.PDF" = Str.lower "report.pdf") as Hsame
    by reflexivity.
  split; [exact Hfile |]. split; [exact Hsame |].
  exact (proj2 (file_url_decided_by_suffix "http://h/files/" "report.pdf"
                  "Report.PDF" Hfile Hsame)).
Defined.

(** X14, witness: the sitemap of a two-page crawl. *)
Lemma main_writes_the_visited_pages_witness :
  Scenario.urlparse_raises "http://h/" = None /\
  (crawl two_pages (new_generator "http://h/" 5 (Some []))).1
  = inr ["http://h/a"; "http://h/"] /\
  Forall Xml.plain_text ["http://h/a"; "http://h/"] /\
  Xml.read_sitemap (Xml.sitemap_text ["http://h/a"; "http://h/"]) ≡ₚ
  visit_log (fetched (crawl two_pages
                        (new_generator "http://h/" 5 (Some []))).2).
Proof.
  assert (Scenario.urlparse_raises "http://h/" = None) as Hparse
    by reflexivity.
  assert ((crawl two_pages (new_generator "http://h/" 5 (Some []))).1
          = inr ["http://h/a"; "http://h/"]) as Hrun.
  { crawl_by_fuel 5%nat. vm_compute. reflexivity. }
  assert (Forall Xml.plain_text ["http://h/a"; "http://h/"]) as Hplain
    by (repeat constructor).
  split; [exact Hparse |]. split; [exact Hrun |]. split; [exact Hplain |].
  exact (proj2 (on_network main_writes_the_visited_pages _ elements
                  elements_enumerates (fun _ _ => Normal) "http://h/" 5
                  "sitemap.xml" [] _ Hparse Hrun Hplain)).
Defined.

(** X15, witness: a site that does not answer. *)
Lemma main_on_unreachable_site_witness :
  Scenario.urlparse_raises "http://h/" = None /\
  0 < 5 /\
  failed (Scenario.serve [] 0 "http://h/") /\
  run_main [] "http://h/" 5 "sitemap.xml" []
  = mkMainOutcome None [("http://h/", inl RequestException)]
      (Some (Xml.sitemap_text [])).
Proof.
  assert (Scenario.urlparse_raises "http://h/" = None) as Hparse
    by reflexivity.
  assert (0 < 5) as Hmp by reflexivity.
  assert (failed (Scenario.serve [] 0 "http://h/")) as Hfail by reflexivity.
  split; [exact Hparse |]. split; [exact Hmp |]. split; [exact Hfail |].
  exact (on_network main_on_unreachable_site [] elements
           elements_enumerates (fun _ _ => Normal) "http://h/" 5
           "sitemap.xml" [] Hparse Hmp Hfail).
Defined.

(** X16, witness: the page [/a] of a two-page crawl. *)
Lemma requested_urls_are_parsable_witness :
  Scenario.urlparse_raises "http://h/" = None /\
  "http://h/a" ∈
    (fetched (crawl two_pages (new_generator "http://h/" 5 None)).2).*1 /\
  Scenario.urlparse_raises "http://h/a" = None.
Proof.
  assert (Scenario.urlparse_raises "http://h/" = None) as Hbase
    by reflexivity.
  assert ("http://h/a" ∈
            (fetched (crawl two_pages (new_generator "http://h/" 5 None)).2).*1)
    as Hin.
  { crawl_by_fuel 5%nat. apply list_elem_of_In. vm_compute. tauto. }
  split; [exact Hbase |]. split; [exact Hin |].
  exact (proj1 (on_network requested_urls_are_parsable _ elements
                  elements_enumerates "http://h/" 5 None "http://h/a" Hbase)
           Hin).
Defined.

(** A site whose base page carries a link with an open bracket in its
    host, between two links that resolve. *)
Local Abbreviation bad_link :=
  [("http://h/", Scenario.page ["/a"; "http://[bad/"; "/b"]);
   ("http://h/a", Scenario.page []);
   ("http://h/b", Scenario.page [])].

(** X17, witness: the first pass over that site. *)
Lemma raising_link_ends_the_crawl_witness :
  loop_cond (start (new_generator "http://h/" 10 None)) = true /\
  Scenario.serve bad_link 0 "http://h/"
  = Scenario.page ["/a"; "http://[bad/"; "/b"] /\
  (on_network crawl_loop bad_link
     (start (new_generator "http://h/" 10 None))).1
  = Raised Scenario.ValueError /\
  fetched (on_network crawl_loop bad_link
             (start (new_generator "http://h/" 10 None))).2
  = [("http://h/", Scenario.page ["/a"; "http://[bad/"; "/b"])].
Proof.
  assert (loop_cond (start (new_generator "http://h/" 10 None)) = true)
    as Hcond by (vm_compute; reflexivity).
  assert (Scenario.serve bad_link 0 "http://h/"
          = Scenario.page ["/a"; "http://[bad/"; "/b"]) as Hget
    by reflexivity.
  assert ("http://h/" ∉
            visited_urls (self (start (new_generator "http://h/" 10 None))))
    as Hnew by apply not_elem_of_empty.
  split; [exact Hcond |]. split; [exact Hget |].
  destruct (on_network raising_link_ends_the_crawl bad_link
              (start (new_generator "http://h/" 10 None)) "http://h/" []
              _ Scenario.ValueError eq_refl Hcond Hnew Hget eq_refl eq_refl
              eq_refl eq_refl) as (Hraise & _ & Hlog).
  split; [exact Hraise | exact Hlog].
Defined.


